(** * dbless-alembic: the orchestration flows of [dbless_migration.py]

    A shallow embedding of the module: configuration parsing, the Docker
    container life cycle, the readiness wait, the migration guard and
    the three commands [start], [stop] and [auto].  The library
    boundaries (Docker daemon, SQLAlchemy connection, Alembic commands,
    the monotonic clock) are modelled by an explicit world state, a
    trace of boundary calls, and an environment record that decides the
    outcome of every call that may fail. *)

From Stdlib Require Import ZArith String Ascii List Bool Lia.
From stdpp Require Import base option list gmap strings.

Local Open Scope string_scope.
Local Open Scope Z_scope.

(** ** Python strings *)

Module PyStr.

(** [s.split(sep)] for a one-character separator: [n] occurrences of
    the separator give [n + 1] pieces, the empty string gives [['']]. *)
Fixpoint split (sep : ascii) (s : string) : list string :=
  match s with
  | EmptyString => [EmptyString]
  | String c rest =>
      if Ascii.eqb c sep then EmptyString :: split sep rest
      else match split sep rest with
           | [] => [String c EmptyString]
           | piece :: pieces => String c piece :: pieces
           end
  end.

(** Truthiness of a string: [if v] holds for the non-empty ones. *)
Definition truthy (s : string) : bool :=
  match s with EmptyString => false | String _ _ => true end.

Fixpoint count (c : ascii) (s : string) : nat :=
  match s with
  | EmptyString => 0%nat
  | String d rest => ((if Ascii.eqb d c then 1 else 0) + count c rest)%nat
  end.

Fixpoint take (n : nat) (s : string) : string :=
  match n, s with
  | S m, String c rest => String c (take m rest)
  | _, _ => EmptyString
  end.

Fixpoint drop (n : nat) (s : string) : string :=
  match n, s with
  | S m, String _ rest => drop m rest
  | _, _ => s
  end.

Fixpoint repeat_char (c : ascii) (n : nat) : string :=
  match n with
  | O => EmptyString
  | S m => String c (repeat_char c m)
  end.

(** The characters [int()] and [str.strip()] treat as white space in
    an ASCII string: TAB, LF, VT, FF, CR and the space. *)
Definition is_space (c : ascii) : bool :=
  let n := nat_of_ascii c in
  ((9 <=? n) && (n <=? 13) || (n =? 32))%nat.

Definition digit_of (c : ascii) : option Z :=
  let n := nat_of_ascii c in
  if ((48 <=? n) && (n <=? 57))%nat then Some (Z.of_nat n - 48) else None.

Fixpoint lstrip (s : string) : string :=
  match s with
  | String c rest => if is_space c then lstrip rest else s
  | EmptyString => EmptyString
  end.

(** Trailing white space is dropped from the right end. *)
Fixpoint rstrip (s : string) : string :=
  match s with
  | EmptyString => EmptyString
  | String c rest =>
      match rstrip rest with
      | EmptyString => if is_space c then EmptyString else String c EmptyString
      | kept => String c kept
      end
  end.

(** Decimal digits with single underscores allowed between digits.
    [acc] is the value read so far, [after_digit] tells whether the
    previous character was a digit. *)
Fixpoint digits (acc : Z) (after_digit : bool) (s : string) : option Z :=
  match s with
  | EmptyString => if after_digit then Some acc else None
  | String c rest =>
      match digit_of c with
      | Some d => digits (10 * acc + d) true rest
      | None =>
          if Ascii.eqb c "_" && after_digit then digits acc false rest
          else None
      end
  end.

(** The number of decimal digits in the string. *)
Fixpoint count_digits (s : string) : nat :=
  match s with
  | EmptyString => 0%nat
  | String c rest =>
      ((match digit_of c with Some _ => 1 | None => 0 end) + count_digits rest)%nat
  end.

(** How [int(s)] reads a text of ASCII characters, base 10: surrounding
    white space, an optional sign, then digits, 4300 of them at most.
    [None] stands for [ValueError]; it is also the answer to a text
    with other characters, which this reader does not cover. *)
Definition ascii_int (s : string) : option Z :=
  let body := rstrip (lstrip s) in
  if (4300 <? count_digits body)%nat then None
  else match body with
       | String "-" body => Z.opp <$> digits 0 false body
       | String "+" body => digits 0 false body
       | body => digits 0 false body
       end.

(** All characters are ASCII. *)
Fixpoint ascii_only (s : string) : bool :=
  match s with
  | EmptyString => true
  | String c rest => (nat_of_ascii c <? 128)%nat && ascii_only rest
  end.

Definition lower_char (c : ascii) : ascii :=
  let n := nat_of_ascii c in
  if ((65 <=? n) && (n <=? 90))%nat then ascii_of_nat (n + 32) else c.

(** [s.lower()] on a text of ASCII characters. *)
Fixpoint lower_ascii (s : string) : string :=
  match s with
  | EmptyString => EmptyString
  | String c rest => String (lower_char c) (lower_ascii rest)
  end.

(** ['%' in s] *)
Fixpoint has_percent (s : string) : bool :=
  match s with
  | EmptyString => false
  | String c rest => Ascii.eqb c "%" || has_percent rest
  end.

End PyStr.

(** ** [io.StringIO]: one buffer, one stream position shared by reads
    and writes *)

Record StringIO := mkStringIO { buffer : string; position : nat }.

Module StringIO_.

Definition fresh : StringIO := mkStringIO "" 0.

(** [write(s)]: the text overwrites the buffer at the stream position
    (padding with NUL when the position is past the end) and the
    position moves behind what was written. *)
Definition write (s : string) (f : StringIO) : StringIO :=
  let len := String.length (buffer f) in
  let pos := position f in
  let padded := buffer f ++ PyStr.repeat_char zero (pos - len) in
  mkStringIO
    (PyStr.take pos padded ++ s ++ PyStr.drop (pos + String.length s) padded)
    (pos + String.length s).

(** The text up to and including the first line feed. *)
Fixpoint line_of (s : string) : string :=
  match s with
  | EmptyString => EmptyString
  | String c rest =>
      if Ascii.eqb c "010" then String c EmptyString
      else String c (line_of rest)
  end.

(** [readline()]: reads from the stream position; at or past the end
    of the buffer it returns the empty string. *)
Definition readline (f : StringIO) : string * StringIO :=
  let line := line_of (PyStr.drop (position f) (buffer f)) in
  (line, mkStringIO (buffer f) (position f + String.length line)).

Definition at_end (f : StringIO) : Prop :=
  position f = String.length (buffer f).

End StringIO_.

(** ** Exceptions *)

(** Why [initialize_alembic_cfg] raises [click.ClickException]. *)
Inductive config_error :=
| SectionMissing
| ValidationFailed (bad_fields : list string).

Inductive exn_kind :=
| Abort                                (* typer.Abort *)
| ClickException (why : config_error)  (* click.ClickException *)
| OperationalError                     (* sqlalchemy.exc.OperationalError *)
| Conflict                             (* docker APIError 409 *)
| NotFound                             (* docker.errors.NotFound *)
| KeyError
| ValueError
| ValidationError                      (* pydantic.ValidationError *)
| InterpolationError                   (* configparser.InterpolationError *)
| CommandError                         (* alembic.util.CommandError *)
| BoundaryError (origin : string).     (* any other exception of a library call *)

(** A raised exception with its [__context__] chain: the exceptions
    that were being handled, innermost last, when this one was raised. *)
Record exn := Exn { kind_of : exn_kind; context_of : list exn_kind }.

(** The exceptions reported with [e]: [e] itself, then its contexts. *)
Definition chain (e : exn) : list exn_kind := kind_of e :: context_of e.

(** [e] raised while [handled] is being handled: the innermost
    exception of [e]'s own chain gets [handled] as its context. *)
Definition raised_during (handled : exn) (e : exn) : exn :=
  Exn (kind_of e) (context_of e ++ chain handled).

(** ** The world: Docker runtime, clock, stream objects, trace *)

Inductive Status := Created | Running | Exited.

Record Image := mkImage { tags : list string }.

Record Container := mkContainer {
  name : string;
  status : Status;
  image : string;
  environment : gmap string string;
  ports : gmap string Z
}.

(** Calls that cross a library boundary, in program order. *)
Inductive Event :=
| EvPrint (text : string)                        (* console.print *)
| EvImagesList                                   (* client.images.list() *)
| EvPull (image_name : string)                   (* client.api.pull *)
| EvContainersList                               (* client.containers.list() *)
| EvContainersGet (container_name : string)      (* client.containers.get *)
| EvContainerStop (container_name : string)      (* container.stop() *)
| EvContainerRemove (container_name : string)    (* container.remove() *)
| EvContainersRun (image_name container_name : string)
    (env : gmap string string) (port_map : gmap string Z)
| EvMonotonic                                    (* time.monotonic() *)
| EvConnect (url : string)                       (* create_engine(url).connect() *)
| EvDispose (url : string)                       (* engine.dispose() *)
| EvSleep (seconds : Z)                          (* time.sleep *)
| EvCurrent (url : string)                       (* command.current *)
| EvUpgrade (url revision : string)              (* command.upgrade *)
| EvRevision (url message : string).             (* command.revision *)

Record World := mkWorld {
  images : list Image;
  containers : list Container;
  clock : Z;                   (* monotonic clock, in milliseconds *)
  streams : list StringIO;     (* the stream objects, by address *)
  trace : list Event
}.

Definition log (ev : Event) (w : World) : World :=
  mkWorld (images w) (containers w) (clock w) (streams w) (trace w ++ [ev]).

Definition set_images (imgs : list Image) (w : World) : World :=
  mkWorld imgs (containers w) (clock w) (streams w) (trace w).

Definition set_containers (cs : list Container) (w : World) : World :=
  mkWorld (images w) cs (clock w) (streams w) (trace w).

Definition advance (ms : Z) (w : World) : World :=
  mkWorld (images w) (containers w) (clock w + Z.max 0 ms) (streams w) (trace w).

Definition set_streams (ss : list StringIO) (w : World) : World :=
  mkWorld (images w) (containers w) (clock w) ss (trace w).

(** ** The environment: what the libraries answer *)

Inductive run_result :=
| RunStarted
| RunCreateFailed (k : exn_kind)   (* nothing was created *)
| RunStartFailed (k : exn_kind).   (* created, then the start was rejected *)

Inductive connect_result :=
| Connected
| Unreachable                      (* raises OperationalError *)
| ConnectFailed (k : exn_kind).    (* raises [k] *)

Record Env := mkEnv {
  pull_outcome : string -> World -> option exn_kind;
  run_outcome : string -> gmap string string -> gmap string Z -> World -> run_result;
  stop_outcome : string -> World -> option exn_kind;
  remove_outcome : string -> World -> option exn_kind;
  connect_outcome : string -> World -> connect_result;
  connect_cost : string -> World -> Z;       (* ms spent in one attempt *)
  oversleep : World -> Z;                    (* ms slept beyond the request *)
  current_outcome : string -> World -> list string + exn_kind;
  upgrade_outcome : string -> string -> World -> option exn_kind;
  revision_outcome : string -> string -> World -> option exn_kind;
  int_of_str : string -> option Z;           (* the integer validation of a text *)
  lower_other : string -> string             (* [s.lower()] beyond ASCII *)
}.

(** [s.lower()]: on ASCII text the capital letters are replaced, any
    other text is the interpreter's matter. *)
Definition str_lower (E : Env) (s : string) : string :=
  if PyStr.ascii_only s then PyStr.lower_ascii s else lower_other E s.

(** ** The monad of the program: world passing with exceptions *)

Inductive Result (A : Type) :=
| Ok (value : A)
| Raise (e : exn).
Arguments Ok {A} value.
Arguments Raise {A} e.

Definition M (A : Type) : Type := World -> Result A * World.

Definition ret {A} (a : A) : M A := fun w => (Ok a, w).

Definition bind {A B} (m : M A) (k : A -> M B) : M B :=
  fun w =>
    match m w with
    | (Ok a, w') => k a w'
    | (Raise e, w') => (Raise e, w')
    end.

Definition raise {A} (k : exn_kind) : M A := fun w => (Raise (Exn k []), w).

Definition emit (ev : Event) : M unit := fun w => (Ok tt, log ev w).

Definition console_print (text : string) : M unit := emit (EvPrint text).

Notation "'let!' x ':=' m 'in' k" := (bind m (fun x => k))
  (at level 10, x name, m at level 200, k at level 200).
Notation "m '>>' k" := (bind m (fun _ => k))
  (at level 90, right associativity).

(** [try: body finally: cleanup].  The cleanup runs on every exit of
    the body.  When the body raised and the cleanup returns, the body's
    exception propagates; when the cleanup raises too, its exception
    propagates with the body's exception as context. *)
Definition try_finally {A} (body : M A) (cleanup : M unit) : M A :=
  fun w =>
    match body w with
    | (Ok a, w1) =>
        match cleanup w1 with
        | (Ok _, w2) => (Ok a, w2)
        | (Raise e2, w2) => (Raise e2, w2)
        end
    | (Raise e, w1) =>
        match cleanup w1 with
        | (Ok _, w2) => (Raise e, w2)
        | (Raise e2, w2) => (Raise (raised_during e e2), w2)
        end
    end.

(** ** Configuration *)

Definition CONTAINER_NAME : string := "dbless".
Definition INI_SECTION_NAME : string := "dbless".

Record Config := mkConfig {
  image_name : string;
  container_env : gmap string string;
  port_mapping : gmap string Z;
  engine_url : string
}.

(** [{k: v for k, v in pairs}]: every element must unpack into exactly
    two strings ([None] stands for the [ValueError] of a failed
    unpacking); a repeated key keeps its last value. *)
Fixpoint dict_of_pairs (pairs : list (list string)) (acc : gmap string string)
  : option (gmap string string) :=
  match pairs with
  | [] => Some acc
  | [k; v] :: rest => dict_of_pairs rest (<[k := v]> acc)
  | _ :: _ => None
  end.

(** The [pre=True] validator of [container_env] and [port_mapping], on
    the string an ini option holds. *)
Definition parse_as_dict (value : string) : option (gmap string string) :=
  dict_of_pairs
    (map (PyStr.split "=") (List.filter PyStr.truthy (PyStr.split ";" value)))
    ∅.

(** The [dict[str, int]] field: every value goes through the integer
    validation, which is the interpreter's [int()] behind the checks of
    the validation library. *)
Definition int_values (E : Env) (d : gmap string string) : option (gmap string Z) :=
  if decide (map_Forall (fun _ v => is_Some (int_of_str E v)) d)
  then Some (omap (int_of_str E) d)
  else None.

Definition field_errors {A} (field : string) (v : option A) : list string :=
  match v with Some _ => [] | None => [field] end.

(** The model is built when every field validated; otherwise the
    failing fields are reported together, in declaration order. *)
Definition collect_fields (img : option string) (env : option (gmap string string))
    (prt : option (gmap string Z)) (url : option string) : Config + list string :=
  match img, env, prt, url with
  | Some i, Some e, Some p, Some u => inl (mkConfig i e p u)
  | _, _, _, _ =>
      inr (field_errors "image_name" img ++ field_errors "container_env" env
           ++ field_errors "port_mapping" prt ++ field_errors "engine_url" url)%list
  end.

(** A required field: the option must be present and pass [validate]. *)
Definition field {A} (section : gmap string string) (field_name : string)
    (validate : string -> option A) : option A :=
  match section !! field_name with
  | Some value => validate value
  | None => None
  end.

(** [Config.parse_obj] on the options of an ini section: the four
    fields are required and the two mappings go through
    [parse_as_dict] before their own validation. *)
Definition parse_obj (E : Env) (section : gmap string string) : Config + list string :=
  collect_fields
    (field section "image_name" Some)
    (field section "container_env" parse_as_dict)
    (field section "port_mapping"
       (fun value => match parse_as_dict value with
                     | Some d => int_values E d
                     | None => None
                     end))
    (field section "engine_url" Some).

(** ** The Alembic configuration object *)

Inductive stream_ref :=
| SysStdout                 (* the default of [alembic.config.Config] *)
| Buffer (address : nat).   (* an [io.StringIO] object *)

(** The parsed ini file: for every section its options with their raw
    values, option names as the parser stores them.  The entry
    [DEFAULT] holds the defaults of the parser, among them [here]. *)
Record AlembicCfg := mkAlembicCfg {
  file_config : gmap string (gmap string string);   (* section -> options *)
  stdout : stream_ref
}.

Definition config_ini_section : string := "alembic".
Definition DEFAULT : string := "DEFAULT".

Definition has_section (cfg : AlembicCfg) (section : string) : bool :=
  negb (String.eqb section DEFAULT)
  && bool_decide (is_Some (file_config cfg !! section)).

(** The raw options of a section. *)
Definition raw_section (cfg : AlembicCfg) (section : string) : gmap string string :=
  default ∅ (file_config cfg !! section).

(** The options a section is read with: its own, then the defaults. *)
Definition unify_values (cfg : AlembicCfg) (section : string) : gmap string string :=
  raw_section cfg section ∪ raw_section cfg DEFAULT.

(** Where the scan of a raw value stands: in plain text, behind a [%],
    inside the name of [%(name)s], or behind its closing bracket. *)
Inductive scan_state :=
| Text
| Percent
| Name (acc : string)
| Closed (name : string).

(** [BasicInterpolation.before_get]: [%%] stands for [%] and
    [%(name)s] for the value of the option [name], itself interpolated
    when it holds a [%]; anything else behind a [%] is an error, as is
    a missing option or a nesting beyond [depth].  [None] stands for
    the [InterpolationError]. *)
Fixpoint interpolate (E : Env) (depth : nat) (values : gmap string string)
    (value : string) : option string :=
  match depth with
  | O => None
  | S depth' =>
      (fix scan (st : scan_state) (rest : string) {struct rest} : option string :=
         match rest with
         | EmptyString => match st with Text => Some EmptyString | _ => None end
         | String c tail =>
             match st with
             | Text =>
                 if Ascii.eqb c "%" then scan Percent tail
                 else String c <$> scan Text tail
             | Percent =>
                 if Ascii.eqb c "%" then String "%" <$> scan Text tail
                 else if Ascii.eqb c "(" then scan (Name EmptyString) tail
                 else None
             | Name acc =>
                 if Ascii.eqb c ")" then
                   match acc with
                   | EmptyString => None
                   | _ => scan (Closed acc) tail
                   end
                 else scan (Name (acc ++ String c EmptyString)) tail
             | Closed name =>
                 if Ascii.eqb c "s" then
                   match values !! str_lower E name with
                   | None => None
                   | Some v =>
                       match (if PyStr.has_percent v
                              then interpolate E depth' values v
                              else Some v), scan Text tail with
                       | Some expanded, Some after => Some (expanded ++ after)
                       | _, _ => None
                       end
                   end
                 else None
             end
         end) Text value
  end.

Definition MAX_INTERPOLATION_DEPTH : nat := 10.

(** [value.replace('%%', '')] *)
Fixpoint drop_escaped (s : string) : string :=
  match s with
  | String "%" (String "%" rest) => drop_escaped rest
  | String c rest => String c (drop_escaped rest)
  | EmptyString => EmptyString
  end.

(** The text behind [name)s], for a name of one character at least
    that holds no closing bracket. *)
Fixpoint after_name (nonempty : bool) (s : string) : option string :=
  match s with
  | EmptyString => None
  | String c rest =>
      if Ascii.eqb c ")" then
        if nonempty
        then match rest with String "s" after => Some after | _ => None end
        else None
      else after_name true rest
  end.

(** The text behind a [%(name)s] the string starts with. *)
Definition after_reference (s : string) : option string :=
  match s with
  | String "%" (String "(" rest) => after_name false rest
  | _ => None
  end.

(** The string without its [%(name)s], found from left to right. *)
Fixpoint drop_references (fuel : nat) (s : string) : string :=
  match fuel with
  | O => s
  | S fuel' =>
      match s with
      | EmptyString => EmptyString
      | String c rest =>
          match after_reference s with
          | Some after => drop_references fuel' after
          | None => String c (drop_references fuel' rest)
          end
      end
  end.

(** [BasicInterpolation.before_set]: the value is refused, with a
    [ValueError], when a [%] is left once the [%%] and the [%(name)s]
    are taken out. *)
Definition before_set (value : string) : bool :=
  let escaped := drop_escaped value in
  negb (PyStr.has_percent (drop_references (String.length escaped) escaped)).

(** [get_section(name)]: the options of the section and the defaults,
    every value interpolated; [None] stands for the
    [InterpolationError] of a value that cannot be. *)
Definition get_section (E : Env) (cfg : AlembicCfg) (section : string)
  : option (gmap string string) :=
  let values := unify_values cfg section in
  if decide (map_Forall
               (fun _ v => is_Some (interpolate E MAX_INTERPOLATION_DEPTH values v))
               values)
  then Some (omap (interpolate E MAX_INTERPOLATION_DEPTH values) values)
  else None.

(** [set_main_option(name, value)]: the raw value is stored in the main
    section, which is added when it is not there; [None] stands for the
    [ValueError] of a value that is refused. *)
Definition set_main_option (E : Env) (option_name value : string) (cfg : AlembicCfg)
  : option AlembicCfg :=
  if before_set value then
    Some (mkAlembicCfg
            (<[config_ini_section :=
                 <[str_lower E option_name := value]> (raw_section cfg config_ini_section)]>
               (file_config cfg))
            (stdout cfg))
  else None.

(** [get_main_option(name)]: the interpolated value of the option in
    the main section or the defaults, [None] when there is none. *)
Definition get_main_option (E : Env) (cfg : AlembicCfg) (option_name : string)
  : Result (option string) :=
  if has_section cfg config_ini_section then
    let values := unify_values cfg config_ini_section in
    match values !! str_lower E option_name with
    | None => Ok None
    | Some raw =>
        match interpolate E MAX_INTERPOLATION_DEPTH values raw with
        | Some value => Ok (Some value)
        | None => Raise (Exn InterpolationError [])
        end
    end
  else Raise (Exn CommandError []).

Definition set_stdout (r : stream_ref) (cfg : AlembicCfg) : AlembicCfg :=
  mkAlembicCfg (file_config cfg) r.

(** [io.StringIO()]: a new stream object at the next free address. *)
Definition new_StringIO : M stream_ref :=
  fun w => (Ok (Buffer (length (streams w))),
            set_streams (streams w ++ [StringIO_.fresh]) w).

Definition stream_write (r : stream_ref) (text : string) : M unit :=
  match r with
  | SysStdout => console_print text
  | Buffer a =>
      fun w =>
        match streams w !! a with
        | Some f => (Ok tt, set_streams (<[a := StringIO_.write text f]> (streams w)) w)
        | None => (Raise (Exn (BoundaryError "closed stream") []), w)
        end
  end.

Definition stream_readline (r : stream_ref) : M string :=
  match r with
  | SysStdout => raise (BoundaryError "io.UnsupportedOperation: not readable")
  | Buffer a =>
      fun w =>
        match streams w !! a with
        | Some f =>
            let '(line, f') := StringIO_.readline f in
            (Ok line, set_streams (<[a := f']> (streams w)) w)
        | None => (Raise (Exn (BoundaryError "closed stream") []), w)
        end
  end.

(** [config.print_stdout(text)]: the text, then a line feed. *)
Definition print_stdout (cfg : AlembicCfg) (text : string) : M unit :=
  stream_write (stdout cfg) text >> stream_write (stdout cfg) (String "010" "").

Fixpoint print_lines (cfg : AlembicCfg) (lines : list string) : M unit :=
  match lines with
  | [] => ret tt
  | l :: rest => print_stdout cfg l >> print_lines cfg rest
  end.

(** ** The program *)

Section Program.

Context (E : Env).

(** *** Docker client calls *)

Definition images_list : M (list Image) :=
  fun w => (Ok (images w), log EvImagesList w).

Definition has_tag (tag : string) (i : Image) : bool :=
  existsb (String.eqb tag) (tags i).

(** The image store after a completed pull: the image is present
    under the pulled name. *)
Definition pulled (image_name : string) (imgs : list Image) : list Image :=
  if existsb (has_tag image_name) imgs then imgs
  else (imgs ++ [mkImage [image_name]])%list.

(** [client.api.pull(image_name, stream=True, decode=True)], with the
    consumption of its progress lines. *)
Definition api_pull (image_name : string) : M unit :=
  fun w =>
    let w1 := log (EvPull image_name) w in
    match pull_outcome E image_name w with
    | Some k => (Raise (Exn k []), w1)
    | None => (Ok tt, set_images (pulled image_name (images w)) w1)
    end.

(** [client.containers.list()]: only the running containers, since
    [all] is left at its default. *)
Definition is_running (c : Container) : bool :=
  match status c with Running => true | _ => false end.

Definition containers_list : M (list Container) :=
  fun w => (Ok (List.filter is_running (containers w)), log EvContainersList w).

Definition named (n : string) (c : Container) : bool := String.eqb n (name c).

(** [client.containers.get(name)]: looks among all containers. *)
Definition containers_get (n : string) : M Container :=
  fun w =>
    let w1 := log (EvContainersGet n) w in
    match List.find (named n) (containers w) with
    | Some c => (Ok c, w1)
    | None => (Raise (Exn NotFound []), w1)
    end.

Definition stopped (c : Container) : Container :=
  mkContainer (name c)
    (match status c with Running => Exited | s => s end)
    (image c) (environment c) (ports c).

(** What [container.stop()] does to the container list. *)
Definition stop_all (n : string) (cs : list Container) : list Container :=
  map (fun d => if named n d then stopped d else d) cs.

(** What [container.remove()] does to the container list. *)
Definition remove_all (n : string) (cs : list Container) : list Container :=
  List.filter (fun d => negb (named n d)) cs.

(** [container.stop()] *)
Definition container_stop (c : Container) : M unit :=
  fun w =>
    let w1 := log (EvContainerStop (name c)) w in
    match stop_outcome E (name c) w with
    | Some k => (Raise (Exn k []), w1)
    | None =>
        (Ok tt, set_containers (stop_all (name c) (containers w)) w1)
    end.

(** [container.remove()]: without [force], a running container is
    refused. *)
Definition container_remove (c : Container) : M unit :=
  fun w =>
    let w1 := log (EvContainerRemove (name c)) w in
    match List.find (named (name c)) (containers w) with
    | None => (Raise (Exn NotFound []), w1)
    | Some d =>
        if is_running d then (Raise (Exn Conflict []), w1)
        else match remove_outcome E (name c) w with
             | Some k => (Raise (Exn k []), w1)
             | None =>
                 (Ok tt, set_containers (remove_all (name c) (containers w)) w1)
             end
    end.

(** [client.containers.run(image, name=..., detach=True, ports=...,
    environment=...)]: create, then start.  A name that is taken by
    any container, running or not, is a conflict. *)
Definition containers_run (image_name container_name : string)
    (env : gmap string string) (port_map : gmap string Z) : M unit :=
  fun w =>
    let w1 := log (EvContainersRun image_name container_name env port_map) w in
    let made s := mkContainer container_name s image_name env port_map in
    match run_outcome E image_name env port_map w with
    | RunCreateFailed k => (Raise (Exn k []), w1)
    | outcome =>
        if existsb (named container_name) (containers w)
        then (Raise (Exn Conflict []), w1)
        else match outcome with
             | RunStartFailed k =>
                 (Raise (Exn k []),
                  set_containers (containers w ++ [made Created]) w1)
             | _ =>
                 (Ok tt, set_containers (containers w ++ [made Running]) w1)
             end
    end.

(** *** Images *)

Definition image_pull (image_name : string) : M unit :=
  console_print ("[blue]Pulling image: " ++ image_name) >>
  api_pull image_name.

(** [[i.tags[0] for i in client.images.list() if i.tags]] *)
Definition first_tags (imgs : list Image) : list string :=
  flat_map (fun i => match tags i with [] => [] | t :: _ => [t] end) imgs.

Definition ensure_image_exists (image_name : string) : M unit :=
  let! imgs := images_list in
  if negb (existsb (String.eqb image_name) (first_tags imgs))
  then image_pull image_name
  else ret tt.

(** *** Containers *)

Definition stop_container : M unit :=
  let! listed := containers_list in
  if existsb (named CONTAINER_NAME) listed then
    console_print "[blue]Stopping container" >>
    let! container := containers_get CONTAINER_NAME in
    container_stop container >>
    container_remove container
  else
    console_print "[yellow]No container to stop".

Definition run_container (image_name : string) (env : gmap string string)
    (port_map : gmap string Z) : M unit :=
  let! listed := containers_list in
  (if existsb (named CONTAINER_NAME) listed then stop_container else ret tt) >>
  console_print ("[blue]Running container from image: " ++ image_name) >>
  containers_run image_name CONTAINER_NAME env port_map.

(** *** Waiting for the database *)

(** [time.sleep(seconds)]: at least the time asked for. *)
Definition sleep (seconds : Z) : M unit :=
  fun w =>
    (Ok tt,
     advance (seconds * 1000 + Z.max 0 (oversleep E w)) (log (EvSleep seconds) w)).

(** What the [try] of the loop makes of an attempt: an
    [OperationalError] is caught, whichever way the environment names
    it. *)
Definition classify (r : connect_result) : connect_result :=
  match r with
  | ConnectFailed OperationalError => Unreachable
  | _ => r
  end.

(** [create_engine(url)] and [engine.connect()]: one attempt. *)
Definition connect (url : string) : M connect_result :=
  fun w =>
    (Ok (classify (connect_outcome E url w)),
     advance (connect_cost E url w) (log (EvConnect url) w)).

(** The [while] loop of [wait_for_db_connection]; [None] when [fuel]
    iterations were not enough to leave it. *)
Fixpoint wait_loop (fuel : nat) (engine_url : string) (start_time timeout : Z)
    (w : World) : option (Result unit * World) :=
  if clock w - start_time <? timeout * 1000 then
    match fuel with
    | O => None
    | S fuel' =>
        match connect engine_url w with
        | (Ok Connected, w1) =>
            Some ((console_print "[blue]Connected" >> emit (EvDispose engine_url)) w1)
        | (Ok Unreachable, w1) =>
            match (console_print "[yellow]Trying to connect again..." >> sleep 1) w1 with
            | (_, w2) => wait_loop fuel' engine_url start_time timeout w2
            end
        | (Ok (ConnectFailed k), w1) => Some (Raise (Exn k []), w1)
        | (Raise e, w1) => Some (Raise e, w1)
        end
    end
  else Some (Ok tt, w).

(** Every pass through the loop that continues sleeps a full second,
    so [timeout] passes are enough. *)
Definition wait_fuel (timeout : Z) : nat := Z.to_nat timeout.

Definition wait_for_db_connection (engine_url : string) (timeout : Z) : M unit :=
  console_print "[blue]Waiting for db connection" >>
  fun w =>
    match wait_loop (wait_fuel timeout) engine_url (clock w) timeout w with
    | Some r => r
    | None => (Raise (Exn (BoundaryError "wait_loop: out of fuel") []), w)
    end.

(** *** Migrations *)

(** The database the Alembic environment connects to: the main option
    [sqlalchemy.url]. *)
Definition target_url (cfg : AlembicCfg) : M string :=
  match get_main_option E cfg "sqlalchemy.url" with
  | Ok (Some url) => ret url
  | Ok None => raise KeyError
  | Raise e => fun w => (Raise e, w)
  end.

(** [command.current(cfg)]: prints one line for every revision the
    database is at. *)
Definition command_current (cfg : AlembicCfg) : M unit :=
  let! url := target_url cfg in
  fun w =>
    let w1 := log (EvCurrent url) w in
    match current_outcome E url w with
    | inl lines => print_lines cfg lines w1
    | inr k => (Raise (Exn k []), w1)
    end.

Definition command_upgrade (cfg : AlembicCfg) (revision : string) : M unit :=
  let! url := target_url cfg in
  fun w =>
    let w1 := log (EvUpgrade url revision) w in
    match upgrade_outcome E url revision w with
    | None => (Ok tt, w1)
    | Some k => (Raise (Exn k []), w1)
    end.

Definition command_revision (cfg : AlembicCfg) (message : string) : M unit :=
  let! url := target_url cfg in
  fun w =>
    let w1 := log (EvRevision url message) w in
    match revision_outcome E url message w with
    | None => (Ok tt, w1)
    | Some k => (Raise (Exn k []), w1)
    end.

Definition upgrade_database (alembic_cfg : AlembicCfg) : M unit :=
  console_print "[blue]Running migrations" >>
  command_current alembic_cfg >>
  let! value := stream_readline (stdout alembic_cfg) in
  if PyStr.truthy value then
    console_print "[red]WARNING! Alembic already ran on this database, will not run!" >>
    raise Abort
  else
    command_upgrade alembic_cfg "head".

Definition create_migration (alembic_cfg : AlembicCfg) (message : string) : M unit :=
  console_print "[blue]creating migration" >>
  command_revision alembic_cfg message.

(** *** The command line application *)

(** [ctx.obj] *)
Record Ctx := mkCtx { config : Config; alembic_cfg : AlembicCfg }.

(** The callback that runs before every command; [ini] is the parsed
    content of the [alembic.ini] file. *)
Definition initialize_alembic_cfg (ini : gmap string (gmap string string)) : M Ctx :=
  let cfg := mkAlembicCfg ini SysStdout in
  if negb (has_section cfg INI_SECTION_NAME) then
    raise (ClickException SectionMissing)
  else
    match get_section E cfg INI_SECTION_NAME with
    | None => raise InterpolationError
    | Some section =>
        match parse_obj E section with
        | inr bad =>
            (* raised while the [ValidationError] is being handled *)
            fun w => (Raise (Exn (ClickException (ValidationFailed bad))
                               [ValidationError]), w)
        | inl conf =>
            match set_main_option E "sqlalchemy.url" (engine_url conf) cfg with
            | None => raise ValueError
            | Some cfg =>
                let! stdout_buffer := new_StringIO in
                ret (mkCtx conf (set_stdout stdout_buffer cfg))
            end
        end
    end.

Definition start (ctx : Ctx) : M unit :=
  ensure_image_exists (image_name (config ctx)) >>
  run_container (image_name (config ctx)) (container_env (config ctx))
    (port_mapping (config ctx)) >>
  wait_for_db_connection (engine_url (config ctx)) 60 >>
  upgrade_database (alembic_cfg ctx).

Definition stop : M unit := stop_container.

Definition auto (ctx : Ctx) (message : string) : M unit :=
  try_finally
    (start ctx >>
     create_migration (alembic_cfg ctx) message >>
     console_print "[green]Great success!")
    stop.

Inductive Command := CmdStart | CmdStop | CmdAuto (message : string).

(** [app()]: the callback, then the command that was asked for. *)
Definition app (ini : gmap string (gmap string string)) (cmd : Command) : M unit :=
  let! ctx := initialize_alembic_cfg ini in
  match cmd with
  | CmdStart => start ctx
  | CmdStop => stop
  | CmdAuto message => auto ctx message
  end.

End Program.

(** ** Sample environments and worlds, for the concrete evaluations *)

(** An environment in which nothing fails: the registry delivers, the
    runtime accepts, the database answers at once and has no history. *)
Definition calm : Env :=
  mkEnv (fun _ _ => None) (fun _ _ _ _ => RunStarted) (fun _ _ => None)
        (fun _ _ => None) (fun _ _ => Connected) (fun _ _ => 0) (fun _ => 0)
        (fun _ _ => inl []) (fun _ _ _ => None) (fun _ _ _ => None)
        PyStr.ascii_int (fun s => s).

(** The same, for a database that has already been migrated. *)
Definition migrated (lines : list string) : Env :=
  mkEnv (pull_outcome calm) (run_outcome calm) (stop_outcome calm)
        (remove_outcome calm) (connect_outcome calm) (connect_cost calm)
        (oversleep calm) (fun _ _ => inl lines)
        (upgrade_outcome calm) (revision_outcome calm)
        (int_of_str calm) (lower_other calm).

(** The same as [calm], for a database that never accepts a connection
    and takes [cost] milliseconds to refuse one. *)
Definition unreachable (cost : Z) : Env :=
  mkEnv (pull_outcome calm) (run_outcome calm) (stop_outcome calm)
        (remove_outcome calm) (fun _ _ => Unreachable) (fun _ _ => cost)
        (oversleep calm) (current_outcome calm)
        (upgrade_outcome calm) (revision_outcome calm)
        (int_of_str calm) (lower_other calm).

(** The same as [calm], with an engine that fails to apply. *)
Definition failing_upgrade : Env :=
  mkEnv (pull_outcome calm) (run_outcome calm) (stop_outcome calm)
        (remove_outcome calm) (connect_outcome calm) (connect_cost calm)
        (oversleep calm) (current_outcome calm)
        (fun _ _ _ => Some (BoundaryError "MigrationApplyError"))
        (revision_outcome calm)
        (int_of_str calm) (lower_other calm).

(** The same as [failing_upgrade], with a runtime that also fails to
    stop a container. *)
Definition failing_upgrade_and_stop : Env :=
  mkEnv (pull_outcome calm) (run_outcome calm)
        (fun _ _ => Some (BoundaryError "ContainerStopError"))
        (remove_outcome calm) (connect_outcome calm) (connect_cost calm)
        (oversleep calm) (current_outcome calm)
        (upgrade_outcome failing_upgrade) (revision_outcome calm)
        (int_of_str calm) (lower_other calm).

(** The same as [calm], for a database whose history cannot be read. *)
Definition failing_current : Env :=
  mkEnv (pull_outcome calm) (run_outcome calm) (stop_outcome calm)
        (remove_outcome calm) (connect_outcome calm) (connect_cost calm)
        (oversleep calm) (fun _ _ => inr OperationalError)
        (upgrade_outcome calm) (revision_outcome calm)
        (int_of_str calm) (lower_other calm).

(** The same as [calm], with a database URL that [create_engine] does
    not accept. *)
Definition refusing : Env :=
  mkEnv (pull_outcome calm) (run_outcome calm) (stop_outcome calm)
        (remove_outcome calm)
        (fun _ _ => ConnectFailed (BoundaryError "ArgumentError"))
        (connect_cost calm) (oversleep calm) (current_outcome calm)
        (upgrade_outcome calm) (revision_outcome calm)
        (int_of_str calm) (lower_other calm).

Definition empty_world : World := mkWorld [] [] 0 [] [].

Definition sample_section : gmap string string :=
  list_to_map [("image_name", "postgres:15");
               ("container_env", "POSTGRES_PASSWORD=x");
               ("port_mapping", "5432=5432");
               ("engine_url", "postgresql://postgres:x@localhost/postgres")].

Definition sample_ini : gmap string (gmap string string) :=
  list_to_map [("DEFAULT", list_to_map [("here", "/srv/app")]);
               ("alembic", list_to_map [("script_location", "%(here)s/migrations")]);
               ("dbless", sample_section)].

Definition sample_url : string := "postgresql://postgres:x@localhost/postgres".

Definition sample_ctx : Ctx :=
  match initialize_alembic_cfg calm sample_ini empty_world with
  | (Ok ctx, _) => ctx
  | (Raise _, _) => mkCtx (mkConfig "" ∅ ∅ "") (mkAlembicCfg ∅ SysStdout)
  end.

Definition sample_world : World :=
  snd (initialize_alembic_cfg calm sample_ini empty_world).

(** The world in which [command.upgrade] is reached when the guard let
    the call through: the two events of the check are logged and the
    buffer at [a] holds [f']. *)
Definition after_check (url : string) (a : nat) (f' : StringIO) (w : World) : World :=
  set_streams (<[a := f']> (streams w))
    (log (EvCurrent url) (log (EvPrint "[blue]Running migrations") w)).

(** A runtime that holds one container of the reserved name. *)
Definition sample_container (s : Status) : Container :=
  mkContainer CONTAINER_NAME s "postgres:15" ∅ ∅.

Definition world_with (c : Container) : World := mkWorld [] [c] 0 [] [].

(** ** Encodings of mappings *)

(** The non-empty pieces of a [key=value;key=value] string. *)
Definition segments (value : string) : list string :=
  List.filter PyStr.truthy (PyStr.split ";" value).

(** Every segment is one key and one value around a single [=]. *)
Definition well_formed (value : string) : Prop :=
  forall seg, In seg (segments value) -> PyStr.count "=" seg = 1%nat.

(** Some segment is not of that form. *)
Definition malformed (value : string) : Prop :=
  exists seg, In seg (PyStr.split ";" value) /\ seg <> ""
              /\ PyStr.count "=" seg <> 1%nat.

(** A section that is accepted although fields are empty and port
    values are not positive. *)
Definition degenerate_section : gmap string string :=
  list_to_map [("image_name", ""); ("container_env", "");
               ("port_mapping", "80=0;81=-1"); ("engine_url", "")].

(** A section whose environment has a segment without [=]. *)
Definition malformed_section : gmap string string :=
  <["container_env" := "POSTGRES_PASSWORD=x;DEBUG"]> sample_section.

Definition malformed_ini : gmap string (gmap string string) :=
  <[INI_SECTION_NAME := malformed_section]> sample_ini.


(** ** Frame conditions *)

(** [m] keeps the relation [R] between the world it starts in and the
    world it ends in, whatever its result. *)
Definition framed (R : World -> World -> Prop) {A} (m : M A) : Prop :=
  forall w, R w (snd (m w)).

(** The later world has the containers of the earlier one. *)
Definition same_containers (w w' : World) : Prop := containers w' = containers w.

(** The trace has grown, by events that satisfy [okev] only. *)
Definition grown_by (okev : Event -> Prop) (w w' : World) : Prop :=
  exists evs, trace w' = (trace w ++ evs)%list /\ Forall okev evs.


(** The database the configuration points the engine at, if any,
    satisfies [db]. *)
Definition db_of (E : Env) (db : string -> Prop) (cfg : AlembicCfg) : Prop :=
  forall x, get_main_option E cfg "sqlalchemy.url" = Ok (Some x) -> db x.

(** ** The text of a mapping *)

(** [k=v] *)
Definition encode_pair (kv : string * string) : string :=
  fst kv ++ "=" ++ snd kv.

(** [k1=v1;k2=v2;...;kn=vn] *)
Fixpoint encode_pairs (pairs : list (string * string)) : string :=
  match pairs with
  | [] => ""
  | [kv] => encode_pair kv
  | kv :: rest => encode_pair kv ++ ";" ++ encode_pairs rest
  end.

(** Neither [;] nor [=] occurs in the string. *)
Definition plain (s : string) : Prop :=
  PyStr.count ";" s = 0%nat /\ PyStr.count "=" s = 0%nat.

(** The dict that results from assigning the pairs from left to right. *)
Definition assign_all (pairs : list (string * string)) (acc : gmap string string)
  : gmap string string :=
  foldl (fun m kv => <[fst kv := snd kv]> m) acc pairs.

(** ** Pull progress *)

(** One decoded line of the pull stream: a dict in which any of the
    keys may be missing. *)
Record PullLine := mkPullLine {
  line_status : option string;                (* line["status"] *)
  line_id : option string;                    (* line["id"] *)
  progress_detail : option (gmap string Z)    (* line["progressDetail"] *)
}.

(** A task of the [rich] progress display. *)
Record ProgressTask := mkProgressTask {
  description : string;
  total : Z;
  completed : Z
}.

(** [tasks[task_id] = progress.add_task(task_id, total=...)] for a key
    that is new, [progress.update(tasks[task_id], completed=...)] for
    one that is known.  Task ids are handed out in order, so the tasks
    of the display are a list and the id is the index. *)
Definition track (tasks : gmap string nat) (line : PullLine)
    (progress : list ProgressTask) (task_id : string)
  : Result (gmap string nat * list ProgressTask) :=
  match tasks !! task_id with
  | None =>
      match progress_detail line with
      | Some detail =>
          match detail !! "total" with
          | Some t =>
              Ok (<[task_id := length progress]> tasks,
                  (progress ++ [mkProgressTask task_id t 0])%list)
          | None => Raise (Exn KeyError [])
          end
      | None => Raise (Exn KeyError [])
      end
  | Some task =>
      match progress_detail line with
      | Some detail =>
          match detail !! "current" with
          | Some c =>
              match progress !! task with
              | Some t =>
                  Ok (tasks,
                      <[task := mkProgressTask (description t) (total t) c]> progress)
              | None => Raise (Exn KeyError [])
              end
          | None => Raise (Exn KeyError [])
          end
      | None => Raise (Exn KeyError [])
      end
  end.

Definition show_pull_progress (tasks : gmap string nat) (line : PullLine)
    (progress : list ProgressTask)
  : Result (gmap string nat * list ProgressTask) :=
  match line_status line with
  | None => Raise (Exn KeyError [])
  | Some st =>
      if String.eqb st "Downloading" then
        match line_id line with
        | Some i => track tasks line progress ("[red][Download " ++ i ++ "]")
        | None => Raise (Exn KeyError [])
        end
      else if String.eqb st "Extracting" then
        match line_id line with
        | Some i => track tasks line progress ("[green][Extract  " ++ i ++ "]")
        | None => Raise (Exn KeyError [])
        end
      else Ok (tasks, progress)
  end.

(** [for line in resp: show_pull_progress(tasks, line, progress)] *)
Fixpoint show_all_progress (tasks : gmap string nat) (lines : list PullLine)
    (progress : list ProgressTask)
  : Result (gmap string nat * list ProgressTask) :=
  match lines with
  | [] => Ok (tasks, progress)
  | line :: rest =>
      match show_pull_progress tasks line progress with
      | Ok (tasks', progress') => show_all_progress tasks' rest progress'
      | Raise e => Raise e
      end
  end.

(** The line is one the display reacts to: it has no status, or the
    status is [Downloading] or [Extracting]. *)
Definition shown (line : PullLine) : bool :=
  match line_status line with
  | None => true
  | Some st => String.eqb st "Downloading" || String.eqb st "Extracting"
  end.

(** Every key of [tasks] is the id of a task of the display, and that
    task is described by the key. *)
Definition tasks_wf (tasks : gmap string nat) (progress : list ProgressTask) : Prop :=
  forall key task, tasks !! key = Some task ->
                   exists t, progress !! task = Some t /\ description t = key.

(** The state of the display after a step, compared with the state
    before it: keys keep their tasks, tasks keep their description and
    total, the key set and the task list stay in step. *)
Definition progress_step (tasks : gmap string nat) (progress : list ProgressTask)
    (tasks' : gmap string nat) (progress' : list ProgressTask) : Prop :=
  (tasks_wf tasks progress -> tasks_wf tasks' progress')
  /\ (size tasks = length progress -> size tasks' = length progress')
  /\ (forall key task, tasks !! key = Some task -> tasks' !! key = Some task)
  /\ (forall i t, progress !! i = Some t ->
                  exists t', progress' !! i = Some t'
                             /\ description t' = description t
                             /\ total t' = total t).

(** The lines of a small pull: one layer is announced, downloaded in
    two steps and extracted, then the pull is summed up. *)
Definition sample_lines : list PullLine :=
  [mkPullLine (Some "Pulling fs layer") (Some "a1b2") (Some ∅);
   mkPullLine (Some "Downloading") (Some "a1b2")
     (Some (<["current" := 10]> (<["total" := 100]> ∅)));
   mkPullLine (Some "Downloading") (Some "a1b2")
     (Some (<["current" := 60]> (<["total" := 100]> ∅)));
   mkPullLine (Some "Extracting") (Some "a1b2")
     (Some (<["current" := 5]> (<["total" := 100]> ∅)));
   mkPullLine (Some "Status: Downloaded newer image for postgres:15") None None].

Definition sample_shown : gmap string nat * list ProgressTask :=
  match show_all_progress ∅ sample_lines [] with
  | Ok r => r
  | Raise _ => (∅, [])
  end.

(** The event is not an invocation of [command.upgrade]. *)
Definition not_upgrade (ev : Event) : Prop :=
  match ev with EvUpgrade _ _ => False | _ => True end.

(** ** Counting events *)

Definition is_connect (ev : Event) : bool :=
  match ev with EvConnect _ => true | _ => false end.

Definition is_sleep (ev : Event) : bool :=
  match ev with EvSleep _ => true | _ => false end.

(** The database is touched by the event. *)
Definition is_database_event (ev : Event) : bool :=
  match ev with
  | EvConnect _ | EvDispose _ | EvCurrent _ | EvUpgrade _ _ | EvRevision _ _ => true
  | _ => false
  end.

(** The containers that do not carry the name [n]. *)
Definition others (n : string) (cs : list Container) : list Container :=
  List.filter (fun c => negb (named n c)) cs.

(** The later world has the containers of other names as they were. *)
Definition same_others (w w' : World) : Prop :=
  others CONTAINER_NAME (containers w') = others CONTAINER_NAME (containers w).

(** * Properties *)

(** ** Strings and streams *)

Lemma app_cons (c : ascii) (s t : string) : String c s ++ t = String c (s ++ t).
Proof. reflexivity. Qed.

Lemma length_app_string (s t : string) :
  String.length (s ++ t) = (String.length s + String.length t)%nat.
Proof.
  induction s as [|c s IH]; [reflexivity|].
  rewrite app_cons. simpl. now rewrite IH.
Qed.

Lemma app_empty_r (s : string) : s ++ "" = s.
Proof.
  induction s as [|c s IH]; [reflexivity|].
  rewrite app_cons. now rewrite IH.
Qed.

Lemma take_all (s : string) : PyStr.take (String.length s) s = s.
Proof. induction s as [|c s IH]; simpl; [reflexivity | now rewrite IH]. Qed.

Lemma drop_past (s : string) (n : nat) :
  (String.length s <= n)%nat -> PyStr.drop n s = "".
Proof.
  revert n; induction s as [|c s IH]; intros n Hn.
  - now destruct n.
  - destruct n as [|n]; simpl in *; [lia | apply IH; lia].
Qed.

(** At the end of the buffer there is nothing to read, and reading
    changes nothing. *)
Lemma readline_at_end (f : StringIO) :
  StringIO_.at_end f -> StringIO_.readline f = ("", f).
Proof.
  destruct f as [buf pos]; unfold StringIO_.at_end, StringIO_.readline; simpl.
  intros ->. rewrite drop_past by lia. simpl. now rewrite Nat.add_0_r.
Qed.

(** Writing at the end appends, and leaves the position at the end. *)
Lemma write_at_end (text : string) (f : StringIO) :
  StringIO_.at_end f ->
  StringIO_.write text f
    = mkStringIO (buffer f ++ text) (String.length (buffer f ++ text)).
Proof.
  destruct f as [buf pos]; unfold StringIO_.at_end, StringIO_.write; simpl.
  intros ->. rewrite Nat.sub_diag; simpl. rewrite app_empty_r, take_all.
  rewrite drop_past by lia. now rewrite app_empty_r, length_app_string.
Qed.

Lemma at_end_write (text : string) (f : StringIO) :
  StringIO_.at_end f -> StringIO_.at_end (StringIO_.write text f).
Proof. intros H. rewrite write_at_end by exact H. reflexivity. Qed.

Lemma at_end_fresh : StringIO_.at_end StringIO_.fresh.
Proof. reflexivity. Qed.

(** ** Worlds *)

Lemma set_streams_same (w : World) : set_streams (streams w) w = w.
Proof. now destruct w. Qed.

Lemma set_streams_twice (s1 s2 : list StringIO) (w : World) :
  set_streams s2 (set_streams s1 w) = set_streams s2 w.
Proof. reflexivity. Qed.

(** A write to the buffer at address [a] replaces the stream object
    there and touches nothing else. *)
Lemma stream_write_buffer (a : nat) (text : string) (f : StringIO) (w : World) :
  streams w !! a = Some f ->
  stream_write (Buffer a) text w
    = (Ok tt, set_streams (<[a := StringIO_.write text f]> (streams w)) w).
Proof. intros H. unfold stream_write. now rewrite H. Qed.

(** Printing lines into a buffer that is at its end leaves it at its
    end. *)
Lemma print_lines_at_end (cfg : AlembicCfg) (a : nat) (lines : list string) :
  stdout cfg = Buffer a ->
  forall (f : StringIO) (w : World),
    streams w !! a = Some f -> StringIO_.at_end f ->
    exists f', print_lines cfg lines w = (Ok tt, set_streams (<[a := f']> (streams w)) w)
               /\ StringIO_.at_end f'.
Proof.
  intros Hout. induction lines as [|l rest IH]; intros f w Hf Hend.
  - exists f. split; [|exact Hend]. simpl. unfold ret.
    now rewrite list_insert_id, set_streams_same.
  - simpl. unfold bind, print_stdout, bind. rewrite Hout.
    rewrite (stream_write_buffer a l f w Hf).
    pose proof (lookup_lt_Some _ _ _ Hf) as Hlt.
    set (f1 := StringIO_.write l f).
    assert (H1 : streams (set_streams (<[a:=f1]> (streams w)) w) !! a = Some f1).
    { simpl. apply list_lookup_insert_eq, Hlt. }
    rewrite (stream_write_buffer a _ f1 _ H1).
    set (f2 := StringIO_.write _ f1).
    set (w2 := set_streams _ (set_streams _ w)).
    assert (H2 : streams w2 !! a = Some f2).
    { subst w2; simpl. rewrite list_insert_insert_eq.
      apply list_lookup_insert_eq, Hlt. }
    destruct (IH f2 w2 H2) as [f' [Heq Hend']].
    { subst f2 f1. now apply at_end_write, at_end_write. }
    exists f'. split; [|exact Hend'].
    rewrite Heq. subst w2. simpl. unfold set_streams; simpl.
    now rewrite !list_insert_insert_eq.
Qed.

(** ** The callback *)

(** A value without [%] is read as it is. *)
Lemma interpolate_plain E depth values value :
  PyStr.has_percent value = false ->
  interpolate E (S depth) values value = Some value.
Proof.
  cbn [interpolate]. induction value as [|c rest IH]; [reflexivity|].
  cbn [PyStr.has_percent]. intros H. apply orb_false_iff in H as [Hc Hrest].
  rewrite Hc. rewrite (IH Hrest). reflexivity.
Qed.

(** What a successful run of the callback leaves behind: the validated
    [Config] of the section as the parser reads it, an Alembic
    configuration in which [sqlalchemy.url] was set to the
    [engine_url], and a new, empty buffer as its [stdout]. *)
Lemma initialize_alembic_cfg_ok E ini w ctx w0 :
  initialize_alembic_cfg E ini w = (Ok ctx, w0) ->
  exists section cfg,
    is_Some (ini !! INI_SECTION_NAME)
    /\ get_section E (mkAlembicCfg ini SysStdout) INI_SECTION_NAME = Some section
    /\ parse_obj E section = inl (config ctx)
    /\ set_main_option E "sqlalchemy.url" (engine_url (config ctx))
         (mkAlembicCfg ini SysStdout) = Some cfg
    /\ alembic_cfg ctx = set_stdout (Buffer (length (streams w))) cfg
    /\ w0 = set_streams (streams w ++ [StringIO_.fresh]) w.
Proof.
  unfold initialize_alembic_cfg, has_section. cbn [file_config].
  change (negb (String.eqb INI_SECTION_NAME DEFAULT)) with true. cbn [andb].
  destruct (ini !! INI_SECTION_NAME) as [raw|] eqn:Hsec.
  2:{ rewrite bool_decide_eq_false_2 by (intros [? ?]; discriminate).
      unfold raise. discriminate. }
  rewrite bool_decide_eq_true_2 by eauto. cbn [negb].
  destruct (get_section E _ INI_SECTION_NAME) as [section|] eqn:Hget;
    [|unfold raise; discriminate].
  destruct (parse_obj E section) as [conf|bad] eqn:Hparse; [|discriminate].
  destruct (set_main_option E _ _ _) as [cfg|] eqn:Hset;
    [|unfold raise; discriminate].
  unfold bind, new_StringIO, ret. intros [= <- <-].
  exists section, cfg. repeat split; eauto.
Qed.

Lemma has_section_main (E : Env) (option_name value : string) (cfg cfg' : AlembicCfg) :
  set_main_option E option_name value cfg = Some cfg' ->
  has_section cfg' config_ini_section = true
  /\ unify_values cfg' config_ini_section !! str_lower E option_name = Some value.
Proof.
  unfold set_main_option. destruct (before_set value); [|discriminate].
  intros [= <-]. unfold has_section, unify_values, raw_section. cbn [file_config].
  rewrite lookup_insert_eq. split.
  - rewrite bool_decide_eq_true_2 by eauto. reflexivity.
  - cbn [default]. apply lookup_union_Some_l, lookup_insert_eq.
Qed.

(** A main option that was set is read back as the interpolation of
    the value that was stored. *)
Lemma get_set_main_option (E : Env) (cfg cfg' : AlembicCfg) (option_name value : string) :
  set_main_option E option_name value cfg = Some cfg' ->
  get_main_option E cfg' option_name
  = match interpolate E MAX_INTERPOLATION_DEPTH
            (unify_values cfg' config_ini_section) value with
    | Some read => Ok (Some read)
    | None => Raise (Exn InterpolationError [])
    end.
Proof.
  intros Hset. destruct (has_section_main _ _ _ _ _ Hset) as [Hsec Hval].
  unfold get_main_option. now rewrite Hsec, Hval.
Qed.

(** With an [engine_url] that holds no [%], the URL the engine reads is
    the [engine_url]. *)
Lemma initialize_alembic_cfg_url E ini w ctx w0 :
  initialize_alembic_cfg E ini w = (Ok ctx, w0) ->
  PyStr.has_percent (engine_url (config ctx)) = false ->
  get_main_option E (alembic_cfg ctx) "sqlalchemy.url"
  = Ok (Some (engine_url (config ctx))).
Proof.
  intros H Hplain.
  destruct (initialize_alembic_cfg_ok _ _ _ _ _ H) as (s & cfg & _ & _ & _ & Hset & -> & _).
  change (get_main_option E (set_stdout (Buffer (length (streams w))) cfg)
            "sqlalchemy.url")
    with (get_main_option E cfg "sqlalchemy.url").
  rewrite (get_set_main_option _ _ _ _ _ Hset).
  unfold MAX_INTERPOLATION_DEPTH. now rewrite interpolate_plain.
Qed.

(** A callback that raises has done nothing. *)
Lemma initialize_alembic_cfg_raises E ini w e w0 :
  initialize_alembic_cfg E ini w = (Raise e, w0) -> w0 = w.
Proof.
  unfold initialize_alembic_cfg.
  destruct (negb _); [unfold raise; now intros [= _ <-]|].
  destruct (get_section E _ _); [|unfold raise; now intros [= _ <-]].
  destruct (parse_obj E _); [|now intros [= _ <-]].
  destruct (set_main_option E _ _ _); [|unfold raise; now intros [= _ <-]].
  unfold bind, new_StringIO, ret. discriminate.
Qed.

(** The buffer of the callback is a fresh stream object, positioned at
    its end. *)
Lemma initialize_alembic_cfg_stream E ini w ctx w0 :
  initialize_alembic_cfg E ini w = (Ok ctx, w0) ->
  exists a, stdout (alembic_cfg ctx) = Buffer a
            /\ streams w0 !! a = Some StringIO_.fresh.
Proof.
  intros H.
  destruct (initialize_alembic_cfg_ok _ _ _ _ _ H) as (s & cfg & _ & _ & _ & _ & -> & ->).
  exists (length (streams w)). split; [reflexivity|]. simpl.
  now rewrite list_lookup_middle.
Qed.

(** ** The migration guard *)

(** Whatever [command.current] printed, the [readline] that follows
    finds the stream positioned behind it: the value read is empty and
    the upgrade is attempted. *)
Lemma upgrade_database_at_end E cfg a url f lines w :
  stdout cfg = Buffer a ->
  get_main_option E cfg "sqlalchemy.url" = Ok (Some url) ->
  streams w !! a = Some f ->
  StringIO_.at_end f ->
  current_outcome E url (log (EvPrint "[blue]Running migrations") w) = inl lines ->
  exists f',
    StringIO_.at_end f'
    /\ upgrade_database E cfg w
       = let w3 := after_check url a f' w in
         (match upgrade_outcome E url "head" w3 with
          | None => Ok tt
          | Some k => Raise (Exn k [])
          end, log (EvUpgrade url "head") w3).
Proof.
  intros Hout Hurl Hf Hend Hcur.
  pose proof (lookup_lt_Some _ _ _ Hf) as Hlt.
  set (w1 := log (EvCurrent url) (log (EvPrint "[blue]Running migrations") w)).
  destruct (print_lines_at_end cfg a lines Hout f w1 Hf Hend) as (f' & Hpr & Hend').
  exists f'. split; [exact Hend'|].
  unfold upgrade_database, command_current, command_upgrade, target_url.
  rewrite Hurl, Hout.
  unfold bind, console_print, emit, ret.
  rewrite Hcur. fold w1. rewrite Hpr.
  unfold stream_readline. simpl streams.
  rewrite list_lookup_insert_eq by exact Hlt.
  rewrite (readline_at_end f' Hend').
  change (PyStr.truthy "") with false. cbv beta iota.
  rewrite list_insert_insert_eq, set_streams_twice.
  unfold after_check. fold w1.
  destruct (upgrade_outcome E url "head" _); reflexivity.
Qed.

(** From the state the callback leaves, the guard of
    [upgrade_database] cannot fire: whatever history the database
    reports, the warning is not printed, [command.upgrade] is invoked
    once, and its outcome is the outcome of the call. *)
Lemma upgrade_database_after_callback E ini w ctx w0 w1 url lines :
  initialize_alembic_cfg E ini w = (Ok ctx, w0) ->
  streams w1 = streams w0 ->
  get_main_option E (alembic_cfg ctx) "sqlalchemy.url" = Ok (Some url) ->
  current_outcome E url (log (EvPrint "[blue]Running migrations") w1) = inl lines ->
  let r := upgrade_database E (alembic_cfg ctx) w1 in
  trace (snd r)
    = (trace w1 ++ [EvPrint "[blue]Running migrations";
                    EvCurrent url; EvUpgrade url "head"])%list
  /\ ((forall w', upgrade_outcome E url "head" w' = None) -> fst r = Ok tt).
Proof.
  intros Hinit Hstreams Hurl Hcur.
  destruct (initialize_alembic_cfg_stream _ _ _ _ _ Hinit) as (a & Hout & Hf).
  rewrite <- Hstreams in Hf.
  destruct (upgrade_database_at_end E _ a _ _ lines w1 Hout Hurl Hf at_end_fresh Hcur)
    as (f' & _ & Heq).
  cbv zeta. rewrite Heq. cbv zeta. split.
  - simpl. now rewrite <- !app_assoc.
  - intros Hup. now rewrite Hup.
Qed.

(** C6: on a database whose history query reports nothing, the guard
    of [upgrade_database] lets the call through: [command.upgrade] is
    invoked exactly once, for the revision [head], and the call returns
    normally when the engine reports no error.  The configuration is the
    one the callback built; its buffer has not been touched since.  The
    database is the one at the URL the engine reads from the
    configuration, which is the [engine_url] whenever that holds no
    [%]. *)
Theorem upgrade_database_empty_history E ini w ctx w0 w1 :
  initialize_alembic_cfg E ini w = (Ok ctx, w0) ->
  streams w1 = streams w0 ->
  (PyStr.has_percent (engine_url (config ctx)) = false ->
   get_main_option E (alembic_cfg ctx) "sqlalchemy.url"
   = Ok (Some (engine_url (config ctx))))
  /\ forall url,
       get_main_option E (alembic_cfg ctx) "sqlalchemy.url" = Ok (Some url) ->
       current_outcome E url (log (EvPrint "[blue]Running migrations") w1) = inl [] ->
       let r := upgrade_database E (alembic_cfg ctx) w1 in
       trace (snd r)
         = (trace w1 ++ [EvPrint "[blue]Running migrations";
                         EvCurrent url; EvUpgrade url "head"])%list
       /\ ((forall w', upgrade_outcome E url "head" w' = None) -> fst r = Ok tt).
Proof.
  intros Hinit Hstreams. split.
  - now apply initialize_alembic_cfg_url with (w := w) (w0 := w0) (ini := ini).
  - intros url Hurl Hcur. now apply upgrade_database_after_callback with ini w w0 [].
Qed.

Lemma sample_initialize :
  initialize_alembic_cfg calm sample_ini empty_world = (Ok sample_ctx, sample_world).
Proof. reflexivity. Qed.

Lemma upgrade_database_empty_history_witness :
  trace (snd (upgrade_database calm (alembic_cfg sample_ctx) sample_world))
    = [EvPrint "[blue]Running migrations"; EvCurrent sample_url;
       EvUpgrade sample_url "head"]
  /\ fst (upgrade_database calm (alembic_cfg sample_ctx) sample_world) = Ok tt.
Proof.
  destruct (upgrade_database_empty_history calm sample_ini empty_world
              sample_ctx sample_world sample_world
              sample_initialize eq_refl) as [Hurl Hrun].
  destruct (Hrun sample_url (Hurl eq_refl) eq_refl) as [Ht Hr].
  split; [exact Ht | apply Hr; reflexivity].
Defined.

(** C1, evaluated on a database that has been migrated: the history
    query prints a revision, yet the guard does not abort and
    [command.upgrade] is invoked.  The line was written to the buffer
    and left the stream position at its end, where [readline] finds
    nothing. *)
Theorem upgrade_database_migrated_database_not_refused :
  let E := migrated ["ae1027a6acf (head)"] in
  let r := upgrade_database E (alembic_cfg sample_ctx) sample_world in
  fst r = Ok tt
  /\ trace (snd r)
     = [EvPrint "[blue]Running migrations"; EvCurrent sample_url;
        EvUpgrade sample_url "head"]
  /\ streams (snd r) = [mkStringIO ("ae1027a6acf (head)" ++ String "010" "") 19].
Proof. vm_compute. repeat split; reflexivity. Qed.

(** ** Images *)

Lemma existsb_eqb_In (x : string) (l : list string) :
  existsb (String.eqb x) l = true <-> In x l.
Proof.
  rewrite existsb_exists. split.
  - intros (y & Hy & Heq). apply String.eqb_eq in Heq. now subst.
  - intros H. exists x. split; [exact H | apply String.eqb_refl].
Qed.

(** The pull is decided by the first tag of every cached image, not by
    the tags an image carries. *)
Lemma ensure_image_exists_first_tags E image_name w :
  ensure_image_exists E image_name w
  = if existsb (String.eqb image_name) (first_tags (images w))
    then (Ok tt, log EvImagesList w)
    else image_pull E image_name (log EvImagesList w).
Proof.
  unfold ensure_image_exists, bind, images_list.
  destruct (existsb _ _); reflexivity.
Qed.

Lemma ensure_image_exists_pulls E image_name w :
  ~ In image_name (first_tags (images w)) ->
  trace (snd (ensure_image_exists E image_name w))
  = (trace w ++ [EvImagesList; EvPrint ("[blue]Pulling image: " ++ image_name);
                 EvPull image_name])%list.
Proof.
  intros Hnot. rewrite ensure_image_exists_first_tags.
  destruct (existsb _ _) eqn:Hex.
  - apply existsb_eqb_In in Hex. contradiction.
  - unfold image_pull, bind, console_print, emit, api_pull.
    destruct (pull_outcome E _ _); simpl; now rewrite <- !app_assoc.
Qed.

(** C8, evaluated on an image that is cached under two tags: asked for
    the second one, [ensure_image_exists] pulls although the image is
    among the cached ones under that very name. *)
Theorem ensure_image_exists_repulls_cached_image :
  let w := mkWorld [mkImage ["postgres:15"; "postgres:latest"]] [] 0 [] [] in
  existsb (has_tag "postgres:latest") (images w) = true
  /\ ensure_image_exists calm "postgres:latest" w
     = (Ok tt,
        mkWorld [mkImage ["postgres:15"; "postgres:latest"]] [] 0 []
          [EvImagesList; EvPrint "[blue]Pulling image: postgres:latest";
           EvPull "postgres:latest"]).
Proof. split; reflexivity. Qed.

(** ** Containers *)

Lemma named_name (n : string) (c : Container) : named n c = true <-> name c = n.
Proof. unfold named. rewrite String.eqb_eq. split; congruence. Qed.

Lemma find_named (n : string) (cs : list Container) (c : Container) :
  List.find (named n) cs = Some c -> name c = n /\ In c cs.
Proof.
  intros H. apply find_some in H as [Hin Hn]. split; [now apply named_name | exact Hin].
Qed.

Lemma name_stopped (c : Container) : name (stopped c) = name c.
Proof. reflexivity. Qed.

Lemma is_running_stopped (c : Container) : is_running (stopped c) = false.
Proof. unfold is_running, stopped; simpl. now destruct (status c). Qed.

Lemma find_stop_all (n : string) (cs : list Container) :
  List.find (named n) (stop_all n cs) = option_map stopped (List.find (named n) cs).
Proof.
  induction cs as [|c cs IH]; [reflexivity|]. simpl.
  destruct (named n c) eqn:Hc.
  - unfold named in *. rewrite name_stopped, Hc. reflexivity.
  - rewrite Hc. exact IH.
Qed.

Lemma remove_all_stop_all (n : string) (cs : list Container) :
  remove_all n (stop_all n cs) = remove_all n cs.
Proof.
  induction cs as [|c cs IH]; [reflexivity|]. simpl.
  destruct (named n c) eqn:Hc.
  - unfold named in *. rewrite name_stopped, Hc. simpl. exact IH.
  - rewrite Hc. simpl. now rewrite IH.
Qed.

Lemma existsb_remove_all (n : string) (cs : list Container) :
  existsb (named n) (remove_all n cs) = false.
Proof.
  induction cs as [|c cs IH]; [reflexivity|]. simpl.
  destruct (named n c) eqn:Hc; simpl; [exact IH | now rewrite Hc].
Qed.

Lemma filter_named_remove_all (n : string) (cs : list Container) :
  List.filter (named n) (remove_all n cs) = [].
Proof.
  induction cs as [|c cs IH]; [reflexivity|]. simpl.
  destruct (named n c) eqn:Hc; simpl; [exact IH | now rewrite Hc].
Qed.

(** A running container of that name is among the listed ones. *)
Lemma listed_running (n : string) (cs : list Container) :
  existsb (named n) (List.filter is_running cs) = true
  <-> exists c, In c cs /\ name c = n /\ status c = Running.
Proof.
  rewrite existsb_exists. split.
  - intros (c & Hin & Hn). apply filter_In in Hin as [Hin Hrun].
    exists c. repeat split; [exact Hin | now apply named_name |].
    unfold is_running in Hrun. now destruct (status c).
  - intros (c & Hin & Hn & Hst). exists c. split.
    + apply filter_In. split; [exact Hin|]. unfold is_running. now rewrite Hst.
    + now apply named_name.
Qed.

(** [stop_container] when a running container of the reserved name is
    listed and the runtime carries out what it is asked. *)
Lemma stop_container_running E w :
  (exists c, In c (containers w) /\ name c = CONTAINER_NAME /\ status c = Running) ->
  (forall w', stop_outcome E CONTAINER_NAME w' = None) ->
  (forall w', remove_outcome E CONTAINER_NAME w' = None) ->
  stop_container E w
  = (Ok tt,
     set_containers (remove_all CONTAINER_NAME (containers w))
       (log (EvContainerRemove CONTAINER_NAME)
          (log (EvContainerStop CONTAINER_NAME)
             (log (EvContainersGet CONTAINER_NAME)
                (log (EvPrint "[blue]Stopping container")
                   (log EvContainersList w)))))).
Proof.
  intros Hrun Hstop Hremove.
  pose proof (proj2 (listed_running CONTAINER_NAME (containers w)) Hrun) as Hlisted.
  unfold stop_container, bind at 1. unfold containers_list. rewrite Hlisted.
  unfold bind, console_print, emit, containers_get. simpl containers.
  destruct (List.find (named CONTAINER_NAME) (containers w)) as [c0|] eqn:Hfind.
  2:{ destruct Hrun as (c & Hin & Hn & _).
      apply (find_none _ _ Hfind) in Hin. apply named_name in Hn. congruence. }
  destruct (find_named _ _ _ Hfind) as [Hname _].
  unfold container_stop. rewrite Hname, Hstop.
  unfold container_remove. rewrite Hname. simpl containers.
  rewrite find_stop_all, Hfind. simpl option_map. cbv iota.
  rewrite is_running_stopped, Hremove, remove_all_stop_all.
  reflexivity.
Qed.

(** [stop_container] when no running container of the reserved name is
    listed. *)
Lemma stop_container_none_listed E w :
  (forall c, In c (containers w) -> name c = CONTAINER_NAME -> status c <> Running) ->
  stop_container E w
  = (Ok tt, log (EvPrint "[yellow]No container to stop") (log EvContainersList w)).
Proof.
  intros Hnone. unfold stop_container, bind, containers_list.
  destruct (existsb _ _) eqn:Hex; [|reflexivity].
  apply listed_running in Hex as (c & Hin & Hn & Hst).
  now destruct (Hnone c Hin Hn).
Qed.

(** C5, as the code has it: with no running container of the reserved
    name, [stop_container] returns normally and leaves the containers
    as they are; with a running one, it stops it, then removes it. *)
Theorem stop_container_spec E w :
  ((forall c, In c (containers w) -> name c = CONTAINER_NAME -> status c <> Running) ->
   exists w',
     stop_container E w = (Ok tt, w')
     /\ containers w' = containers w
     /\ trace w' = (trace w ++ [EvContainersList;
                                EvPrint "[yellow]No container to stop"])%list)
  /\ ((exists c, In c (containers w) /\ name c = CONTAINER_NAME /\ status c = Running) ->
      (forall w', stop_outcome E CONTAINER_NAME w' = None) ->
      (forall w', remove_outcome E CONTAINER_NAME w' = None) ->
      exists w',
        stop_container E w = (Ok tt, w')
        /\ containers w' = remove_all CONTAINER_NAME (containers w)
        /\ trace w' = (trace w ++ [EvContainersList;
                                   EvPrint "[blue]Stopping container";
                                   EvContainersGet CONTAINER_NAME;
                                   EvContainerStop CONTAINER_NAME;
                                   EvContainerRemove CONTAINER_NAME])%list).
Proof.
  split.
  - intros Hnone. eexists. split; [now apply stop_container_none_listed|].
    split; [reflexivity|]. simpl. now rewrite <- !app_assoc.
  - intros Hrun Hstop Hremove. eexists.
    split; [now apply stop_container_running|].
    split; [reflexivity|]. simpl. now rewrite <- !app_assoc.
Qed.

Lemma stop_container_spec_witness :
  (exists w',
     stop_container calm empty_world = (Ok tt, w')
     /\ containers w' = []
     /\ trace w' = [EvContainersList; EvPrint "[yellow]No container to stop"])
  /\ (exists w',
        stop_container calm (world_with (sample_container Running)) = (Ok tt, w')
        /\ containers w' = []
        /\ trace w' = [EvContainersList;
                       EvPrint "[blue]Stopping container";
                       EvContainersGet CONTAINER_NAME;
                       EvContainerStop CONTAINER_NAME;
                       EvContainerRemove CONTAINER_NAME]).
Proof.
  split.
  - apply (proj1 (stop_container_spec calm empty_world)).
    intros c Hin. destruct Hin.
  - apply (proj2 (stop_container_spec calm (world_with (sample_container Running)))).
    + exists (sample_container Running). repeat split. now left.
    + reflexivity.
    + reflexivity.
Defined.

(** C5 as stated fails on a container that exists but is not running:
    it is not listed, so [stop_container] neither stops nor removes
    it. *)
Lemma stop_container_leaves_exited_container :
  let w := world_with (sample_container Exited) in
  (exists c, In c (containers w) /\ name c = CONTAINER_NAME)
  /\ stop_container calm w
     = (Ok tt,
        mkWorld [] [sample_container Exited] 0 []
          [EvContainersList; EvPrint "[yellow]No container to stop"])
  /\ In (sample_container Exited) (containers (snd (stop_container calm w))).
Proof.
  cbv zeta. split; [|split].
  - exists (sample_container Exited). split; [now left | reflexivity].
  - reflexivity.
  - now left.
Qed.

(** [run_container] when a running container of the reserved name is
    listed: stop, remove, then run. *)
Lemma run_container_running E image_name env port_map w :
  (exists c, In c (containers w) /\ name c = CONTAINER_NAME /\ status c = Running) ->
  (forall w', stop_outcome E CONTAINER_NAME w' = None) ->
  (forall w', remove_outcome E CONTAINER_NAME w' = None) ->
  (forall w', run_outcome E image_name env port_map w' = RunStarted) ->
  run_container E image_name env port_map w
  = (Ok tt,
     set_containers
       (remove_all CONTAINER_NAME (containers w)
          ++ [mkContainer CONTAINER_NAME Running image_name env port_map])
       (log (EvContainersRun image_name CONTAINER_NAME env port_map)
          (log (EvPrint ("[blue]Running container from image: " ++ image_name))
             (log (EvContainerRemove CONTAINER_NAME)
                (log (EvContainerStop CONTAINER_NAME)
                   (log (EvContainersGet CONTAINER_NAME)
                      (log (EvPrint "[blue]Stopping container")
                         (log EvContainersList (log EvContainersList w))))))))).
Proof.
  intros Hrun Hstop Hremove Hstart.
  pose proof (proj2 (listed_running CONTAINER_NAME (containers w)) Hrun) as Hlisted.
  unfold run_container, bind at 1. unfold containers_list. rewrite Hlisted.
  unfold bind at 1. unfold bind at 1.
  rewrite (stop_container_running E (log EvContainersList w) Hrun Hstop Hremove).
  unfold bind, console_print, emit, containers_run.
  rewrite Hstart. simpl containers. rewrite existsb_remove_all.
  reflexivity.
Qed.

(** C3, as the code has it: when a container of the reserved name is
    running, [run_container] stops it, removes it and starts a new one;
    the call returns normally and exactly one container of that name is
    left, the new one. *)
Theorem run_container_replaces_running_container E image_name env port_map w :
  (exists c, In c (containers w) /\ name c = CONTAINER_NAME /\ status c = Running) ->
  (forall w', stop_outcome E CONTAINER_NAME w' = None) ->
  (forall w', remove_outcome E CONTAINER_NAME w' = None) ->
  (forall w', run_outcome E image_name env port_map w' = RunStarted) ->
  exists w',
    run_container E image_name env port_map w = (Ok tt, w')
    /\ trace w'
       = (trace w ++ [EvContainersList; EvContainersList;
                      EvPrint "[blue]Stopping container";
                      EvContainersGet CONTAINER_NAME;
                      EvContainerStop CONTAINER_NAME;
                      EvContainerRemove CONTAINER_NAME;
                      EvPrint ("[blue]Running container from image: " ++ image_name);
                      EvContainersRun image_name CONTAINER_NAME env port_map])%list
    /\ List.filter (named CONTAINER_NAME) (containers w')
       = [mkContainer CONTAINER_NAME Running image_name env port_map].
Proof.
  intros Hrun Hstop Hremove Hstart. eexists.
  split; [now apply run_container_running|]. split.
  - simpl. now rewrite <- !app_assoc.
  - simpl containers. rewrite List.filter_app, filter_named_remove_all. reflexivity.
Qed.

Lemma run_container_replaces_running_container_witness :
  exists w',
    run_container calm "postgres:16" ∅ ∅ (world_with (sample_container Running))
    = (Ok tt, w')
    /\ trace w'
       = [EvContainersList; EvContainersList;
          EvPrint "[blue]Stopping container";
          EvContainersGet CONTAINER_NAME;
          EvContainerStop CONTAINER_NAME;
          EvContainerRemove CONTAINER_NAME;
          EvPrint "[blue]Running container from image: postgres:16";
          EvContainersRun "postgres:16" CONTAINER_NAME ∅ ∅]
    /\ List.filter (named CONTAINER_NAME) (containers w')
       = [mkContainer CONTAINER_NAME Running "postgres:16" ∅ ∅].
Proof.
  apply (run_container_replaces_running_container calm "postgres:16" ∅ ∅
           (world_with (sample_container Running))).
  - exists (sample_container Running). repeat split. now left.
  - reflexivity.
  - reflexivity.
  - reflexivity.
Defined.

(** C3 as stated fails on a container of the reserved name that is
    stopped: it is not listed, so nothing is stopped or removed, and
    the runtime, willing to start the image otherwise, refuses the new
    container because the name is taken. *)
Lemma run_container_conflict_with_exited_container :
  let w := world_with (sample_container Exited) in
  (exists c, In c (containers w) /\ name c = CONTAINER_NAME /\ status c = Exited)
  /\ run_container calm "postgres:16" ∅ ∅ w
     = (Raise (Exn Conflict []),
        mkWorld [] [sample_container Exited] 0 []
          [EvContainersList;
           EvPrint "[blue]Running container from image: postgres:16";
           EvContainersRun "postgres:16" CONTAINER_NAME ∅ ∅]).
Proof.
  cbv zeta. split.
  - exists (sample_container Exited). repeat split. now left.
  - reflexivity.
Qed.

(** ** Waiting for the database *)

Section Waiting.

Context (E : Env) (url : string) (start_time timeout : Z).

(** One pass through the loop, by the outcome of the attempt. *)
Lemma wait_loop_pass (fuel : nat) (w : World) :
  wait_loop E (S fuel) url start_time timeout w
  = if clock w - start_time <? timeout * 1000 then
      let w1 := advance (connect_cost E url w) (log (EvConnect url) w) in
      match classify (connect_outcome E url w) with
      | Connected =>
          Some (Ok tt, log (EvDispose url) (log (EvPrint "[blue]Connected") w1))
      | Unreachable =>
          let w2 := log (EvPrint "[yellow]Trying to connect again...") w1 in
          wait_loop E fuel url start_time timeout
            (advance (1 * 1000 + Z.max 0 (oversleep E w2)) (log (EvSleep 1) w2))
      | ConnectFailed k => Some (Raise (Exn k []), w1)
      end
    else Some (Ok tt, w).
Proof.
  cbn [wait_loop]. unfold connect.
  destruct (clock w - start_time <? timeout * 1000); [|reflexivity].
  destruct (classify (connect_outcome E url w)); reflexivity.
Qed.

Lemma wait_loop_done (fuel : nat) (w : World) :
  timeout * 1000 <= clock w - start_time ->
  wait_loop E fuel url start_time timeout w = Some (Ok tt, w).
Proof.
  intros H. destruct fuel; cbn [wait_loop];
    now rewrite (proj2 (Z.ltb_ge _ _) H).
Qed.

(** A pass that continues moves the clock by a second at least, so
    the loop is left before the fuel runs out. *)
Lemma wait_loop_total (fuel : nat) :
  forall w, timeout * 1000 - (clock w - start_time) <= 1000 * Z.of_nat fuel ->
            exists r, wait_loop E fuel url start_time timeout w = Some r.
Proof.
  induction fuel as [|fuel IH]; intros w Hfuel.
  - exists (Ok tt, w). apply wait_loop_done. lia.
  - rewrite wait_loop_pass.
    destruct (clock w - start_time <? timeout * 1000); [|eauto]. cbv zeta.
    destruct (classify (connect_outcome E url w)); [eauto| |eauto].
    apply IH. simpl. lia.
Qed.

(** The loop against a database that never accepts a connection: it
    is left normally, not before the timeout, and not later than one
    attempt and one sleep after it. *)
Lemma wait_loop_unreachable (c s : Z) :
  (forall w', connect_outcome E url w' = Unreachable) ->
  (forall w', connect_cost E url w' <= c) ->
  (forall w', oversleep E w' <= s) ->
  0 <= c -> 0 <= s ->
  forall fuel w r w',
    wait_loop E fuel url start_time timeout w = Some (r, w') ->
    clock w - start_time < timeout * 1000 + 1000 + c + s ->
    r = Ok tt
    /\ timeout * 1000 <= clock w' - start_time
    /\ clock w' - start_time < timeout * 1000 + 1000 + c + s.
Proof.
  intros Hout Hcost Hover Hc Hs.
  induction fuel as [|fuel IH]; intros w r w' Hloop Hbound.
  - cbn [wait_loop] in Hloop.
    destruct (Z.ltb_spec (clock w - start_time) (timeout * 1000)); [discriminate|].
    injection Hloop as <- <-. auto.
  - rewrite wait_loop_pass in Hloop.
    destruct (Z.ltb_spec (clock w - start_time) (timeout * 1000)).
    + rewrite Hout in Hloop. cbv zeta in Hloop. cbn [classify] in Hloop.
      apply IH in Hloop; [exact Hloop|]. simpl.
      pose proof (Hcost w).
      pose proof (Hover (log (EvPrint "[yellow]Trying to connect again...")
                           (advance (connect_cost E url w) (log (EvConnect url) w)))).
      lia.
    + injection Hloop as <- <-. auto.
Qed.

End Waiting.

Lemma wait_for_db_connection_loop E url timeout w :
  exists r,
    wait_loop E (wait_fuel timeout) url (clock w) timeout
      (log (EvPrint "[blue]Waiting for db connection") w) = Some r
    /\ wait_for_db_connection E url timeout w = r.
Proof.
  set (w1 := log (EvPrint "[blue]Waiting for db connection") w).
  destruct (wait_loop_total E url (clock w) timeout (wait_fuel timeout) w1) as [r Hr].
  { unfold wait_fuel. simpl. lia. }
  exists r. split; [exact Hr|].
  unfold wait_for_db_connection, bind, console_print, emit. fold w1.
  change (clock w1) with (clock w). now rewrite Hr.
Qed.

(** The wait never ends for lack of fuel: it returns what the loop
    returns. *)
Lemma wait_for_db_connection_not_out_of_fuel E url timeout w :
  wait_loop E (wait_fuel timeout) url (clock w) timeout
    (log (EvPrint "[blue]Waiting for db connection") w) <> None.
Proof.
  destruct (wait_for_db_connection_loop E url timeout w) as (r & Hr & _).
  now rewrite Hr.
Qed.

(** Against a database that never accepts a connection the loop is
    left normally, and not before the timeout. *)
Lemma wait_loop_unreachable_ok E url start_time timeout :
  (forall w', connect_outcome E url w' = Unreachable) ->
  forall fuel w r w',
    wait_loop E fuel url start_time timeout w = Some (r, w') ->
    r = Ok tt /\ timeout * 1000 <= clock w' - start_time.
Proof.
  intros Hout. induction fuel as [|fuel IH]; intros w r w' Hloop.
  - cbn [wait_loop] in Hloop.
    destruct (Z.ltb_spec (clock w - start_time) (timeout * 1000)); [discriminate|].
    injection Hloop as <- <-. auto.
  - rewrite wait_loop_pass in Hloop.
    destruct (Z.ltb_spec (clock w - start_time) (timeout * 1000)).
    + rewrite Hout in Hloop. cbv zeta in Hloop. cbn [classify] in Hloop.
      now apply IH in Hloop.
    + injection Hloop as <- <-. auto.
Qed.

(** C2, as the code has it: against a database that never accepts a
    connection the wait raises nothing; it returns normally once the
    timeout has passed, less than one poll interval plus the time of
    one attempt (and of one oversleep) after it.  An attempt that
    connects ends the loop at once, normally, without a further attempt
    or sleep. *)
Theorem wait_for_db_connection_spec E url timeout :
  (forall w c s,
      0 <= timeout -> 0 <= c -> 0 <= s ->
      (forall w', connect_outcome E url w' = Unreachable) ->
      (forall w', connect_cost E url w' <= c) ->
      (forall w', oversleep E w' <= s) ->
      let r := wait_for_db_connection E url timeout w in
      fst r = Ok tt
      /\ timeout * 1000 <= clock (snd r) - clock w
      /\ clock (snd r) - clock w < timeout * 1000 + 1000 + c + s)
  /\ (forall fuel start_time w,
        clock w - start_time < timeout * 1000 ->
        connect_outcome E url w = Connected ->
        wait_loop E (S fuel) url start_time timeout w
        = Some (Ok tt,
                log (EvDispose url)
                  (log (EvPrint "[blue]Connected")
                     (advance (connect_cost E url w) (log (EvConnect url) w))))).
Proof.
  split.
  - intros w c s HT Hc Hs Hout Hcost Hover.
    destruct (wait_for_db_connection_loop E url timeout w) as ([r w'] & Hloop & Heq).
    cbv zeta. rewrite Heq. simpl fst; simpl snd.
    eapply wait_loop_unreachable in Hloop; eauto.
    simpl. lia.
  - intros fuel start_time w Hlt Hconn. rewrite wait_loop_pass.
    rewrite (proj2 (Z.ltb_lt _ _) Hlt), Hconn. reflexivity.
Qed.

Lemma wait_for_db_connection_spec_witness :
  (let r := wait_for_db_connection (unreachable 700) sample_url 2 empty_world in
   fst r = Ok tt
   /\ 2 * 1000 <= clock (snd r) - clock empty_world
   /\ clock (snd r) - clock empty_world < 2 * 1000 + 1000 + 700 + 0)
  /\ wait_loop calm 1 sample_url 0 2 empty_world
     = Some (Ok tt,
             log (EvDispose sample_url)
               (log (EvPrint "[blue]Connected")
                  (advance 0 (log (EvConnect sample_url) empty_world)))).
Proof.
  split.
  - apply (proj1 (wait_for_db_connection_spec (unreachable 700) sample_url 2)
             empty_world 700 0); try lia; intros; simpl; try reflexivity; lia.
  - apply (proj2 (wait_for_db_connection_spec calm sample_url 2) 0%nat 0 empty_world).
    + simpl. lia.
    + reflexivity.
Defined.

(** C2 as stated fails: after the timeout the wait returns normally,
    no error is raised; and with attempts that take time (1.5 s here,
    for a timeout of 1 s) it returns later than the timeout plus one
    poll interval. *)
Lemma wait_for_db_connection_timeout_returns_normally :
  let r := wait_for_db_connection (unreachable 1500) sample_url 1 empty_world in
  fst r = Ok tt
  /\ clock (snd r) - clock empty_world = 2500
  /\ trace (snd r)
     = [EvPrint "[blue]Waiting for db connection"; EvConnect sample_url;
        EvPrint "[yellow]Trying to connect again..."; EvSleep 1].
Proof. cbv zeta. repeat split; reflexivity. Qed.

(** ** Frame conditions of the program *)

Section Frame.

Context (E : Env) (R : World -> World -> Prop).
Context (okev : Event -> Prop) (db : string -> Prop).

Hypothesis R_refl : forall w, R w w.
Hypothesis R_trans : forall w1 w2 w3, R w1 w2 -> R w2 w3 -> R w1 w3.
Hypothesis R_log : forall ev w, okev ev -> R w (log ev w).
Hypothesis R_streams : forall ss w, R w (set_streams ss w).
Hypothesis R_advance : forall ms w, R w (advance ms w).
Hypothesis R_images : forall imgs w, R w (set_images imgs w).
Hypothesis R_containers : forall cs w, R w (set_containers cs w).

Hypothesis ok_print : forall text, okev (EvPrint text).
Hypothesis ok_sleep : forall n, okev (EvSleep n).
Hypothesis ok_connect : forall x, db x -> okev (EvConnect x).
Hypothesis ok_dispose : forall x, db x -> okev (EvDispose x).
Hypothesis ok_current : forall x, db x -> okev (EvCurrent x).
Hypothesis ok_upgrade : forall x rev, db x -> okev (EvUpgrade x rev).
Hypothesis ok_revision : forall x msg, db x -> okev (EvRevision x msg).
Hypothesis ok_images_list : okev EvImagesList.
Hypothesis ok_pull : forall n, okev (EvPull n).
Hypothesis ok_containers_list : okev EvContainersList.
Hypothesis ok_get : forall n, okev (EvContainersGet n).
Hypothesis ok_stop : forall n, okev (EvContainerStop n).
Hypothesis ok_remove : forall n, okev (EvContainerRemove n).
Hypothesis ok_run : forall i n e p, okev (EvContainersRun i n e p).

Lemma framed_ret {A} (a : A) : framed R (ret a).
Proof. intros w. apply R_refl. Qed.

Lemma framed_raise {A} (k : exn_kind) : framed R (@raise A k).
Proof. intros w. apply R_refl. Qed.

Lemma framed_emit (ev : Event) : okev ev -> framed R (emit ev).
Proof. intros Hev w. now apply R_log. Qed.

Lemma framed_console_print (text : string) : framed R (console_print text).
Proof. apply framed_emit, ok_print. Qed.

Lemma framed_bind {A B} (m : M A) (k : A -> M B) :
  framed R m -> (forall a, framed R (k a)) -> framed R (bind m k).
Proof.
  intros Hm Hk w. unfold bind. specialize (Hm w).
  destruct (m w) as [[a|e] w1]; simpl in *; [|exact Hm].
  eapply R_trans; [exact Hm | apply Hk].
Qed.

Lemma framed_try_finally {A} (body : M A) (cleanup : M unit) :
  framed R body -> framed R cleanup -> framed R (try_finally body cleanup).
Proof.
  intros Hb Hc w. unfold try_finally. specialize (Hb w).
  destruct (body w) as [[a|e] w1]; simpl in *; specialize (Hc w1);
    destruct (cleanup w1) as [[[]|e2] w2]; simpl in *;
    eapply R_trans; eassumption.
Qed.

(** *** Streams and the database *)

Lemma framed_stream_write (r : stream_ref) (text : string) :
  framed R (stream_write r text).
Proof.
  destruct r as [|a]; [apply framed_console_print|].
  intros w. unfold stream_write. destruct (streams w !! a); simpl; auto.
Qed.

Lemma framed_stream_readline (r : stream_ref) : framed R (stream_readline r).
Proof.
  destruct r as [|a]; [apply framed_raise|].
  intros w. unfold stream_readline. destruct (streams w !! a) as [f|]; simpl; auto.
Qed.

Lemma framed_print_lines (cfg : AlembicCfg) (lines : list string) :
  framed R (print_lines cfg lines).
Proof.
  induction lines as [|l rest IH]; [apply framed_ret|].
  simpl. apply framed_bind; [|intros _; exact IH].
  unfold print_stdout. apply framed_bind; intros; apply framed_stream_write.
Qed.

Lemma framed_wait_loop (url : string) (start_time timeout : Z) :
  db url ->
  forall fuel w r w',
    wait_loop E fuel url start_time timeout w = Some (r, w') -> R w w'.
Proof.
  intros Hdb. induction fuel as [|fuel IH]; intros w r w' Hloop.
  - cbn [wait_loop] in Hloop.
    destruct (_ <? _); [discriminate|]. injection Hloop as <- <-. apply R_refl.
  - rewrite wait_loop_pass in Hloop.
    destruct (_ <? _); [|injection Hloop as <- <-; apply R_refl].
    cbv zeta in Hloop.
    assert (H1 : R w (advance (connect_cost E url w) (log (EvConnect url) w))).
    { eapply R_trans; [apply R_log, ok_connect, Hdb | apply R_advance]. }
    destruct (classify (connect_outcome E url w)).
    + injection Hloop as <- <-.
      eapply R_trans; [exact H1|].
      eapply R_trans; [apply R_log, ok_print | apply R_log, ok_dispose, Hdb].
    + apply IH in Hloop. eapply R_trans; [exact H1|].
      eapply R_trans; [|exact Hloop].
      eapply R_trans; [apply R_log, ok_print|].
      eapply R_trans; [apply R_log, ok_sleep | apply R_advance].
    + injection Hloop as <- <-. exact H1.
Qed.

Lemma framed_wait_for_db_connection (url : string) (timeout : Z) :
  db url -> framed R (wait_for_db_connection E url timeout).
Proof.
  intros Hdb w.
  destruct (wait_for_db_connection_loop E url timeout w) as ([r w'] & Hloop & ->).
  simpl. eapply R_trans; [apply R_log, ok_print|].
  eapply framed_wait_loop; eassumption.
Qed.

Lemma framed_command_current (cfg : AlembicCfg) :
  db_of E db cfg -> framed R (command_current E cfg).
Proof.
  intros Hdb w. unfold command_current, target_url.
  destruct (get_main_option E cfg "sqlalchemy.url") as [[x|]|e] eqn:Hx;
    [|apply R_refl|apply R_refl].
  unfold bind, ret. destruct (current_outcome E x w).
  - eapply R_trans; [apply R_log, ok_current, Hdb, Hx | apply framed_print_lines].
  - simpl. apply R_log, ok_current, Hdb, Hx.
Qed.

Lemma framed_command_upgrade (cfg : AlembicCfg) (rev : string) :
  db_of E db cfg -> framed R (command_upgrade E cfg rev).
Proof.
  intros Hdb w. unfold command_upgrade, target_url.
  destruct (get_main_option E cfg "sqlalchemy.url") as [[x|]|e] eqn:Hx;
    [|apply R_refl|apply R_refl].
  unfold bind, ret. destruct (upgrade_outcome E x rev w); simpl;
    apply R_log, ok_upgrade, Hdb, Hx.
Qed.

Lemma framed_upgrade_database (cfg : AlembicCfg) :
  db_of E db cfg -> framed R (upgrade_database E cfg).
Proof.
  intros Hdb. unfold upgrade_database.
  apply framed_bind; [apply framed_console_print | intros _].
  apply framed_bind; [now apply framed_command_current | intros _].
  apply framed_bind; [apply framed_stream_readline | intros value].
  destruct (PyStr.truthy value).
  - apply framed_bind; [apply framed_console_print | intros _; apply framed_raise].
  - now apply framed_command_upgrade.
Qed.

Lemma framed_create_migration (cfg : AlembicCfg) (message : string) :
  db_of E db cfg -> framed R (create_migration E cfg message).
Proof.
  intros Hdb. unfold create_migration.
  apply framed_bind; [apply framed_console_print | intros _].
  intros w. unfold command_revision, target_url.
  destruct (get_main_option E cfg "sqlalchemy.url") as [[x|]|e] eqn:Hx;
    [|apply R_refl|apply R_refl].
  unfold bind, ret. destruct (revision_outcome E x message w); simpl;
    apply R_log, ok_revision, Hdb, Hx.
Qed.

(** *** The Docker client *)

Lemma framed_images_list : framed R images_list.
Proof. intros w. simpl. now apply R_log. Qed.

Lemma framed_api_pull (n : string) : framed R (api_pull E n).
Proof.
  intros w. unfold api_pull. destruct (pull_outcome E n w); simpl.
  - apply R_log, ok_pull.
  - eapply R_trans; [apply R_log, ok_pull | apply R_images].
Qed.

Lemma framed_ensure_image_exists (n : string) : framed R (ensure_image_exists E n).
Proof.
  unfold ensure_image_exists.
  apply framed_bind; [apply framed_images_list | intros imgs].
  destruct (negb _); [|apply framed_ret].
  unfold image_pull. apply framed_bind; [apply framed_console_print | intros _].
  apply framed_api_pull.
Qed.

Lemma framed_containers_list : framed R containers_list.
Proof. intros w. simpl. now apply R_log. Qed.

Lemma framed_containers_get (n : string) : framed R (containers_get n).
Proof.
  intros w. unfold containers_get.
  destruct (List.find _ _); simpl; apply R_log, ok_get.
Qed.

Lemma framed_container_stop (c : Container) : framed R (container_stop E c).
Proof.
  intros w. unfold container_stop. destruct (stop_outcome E _ w); simpl.
  - apply R_log, ok_stop.
  - eapply R_trans; [apply R_log, ok_stop | apply R_containers].
Qed.

Lemma framed_container_remove (c : Container) : framed R (container_remove E c).
Proof.
  intros w. unfold container_remove.
  destruct (List.find _ _) as [d|]; simpl; [|apply R_log, ok_remove].
  destruct (is_running d); simpl; [apply R_log, ok_remove|].
  destruct (remove_outcome E _ w); simpl.
  - apply R_log, ok_remove.
  - eapply R_trans; [apply R_log, ok_remove | apply R_containers].
Qed.

Lemma framed_containers_run (i n : string) (e : gmap string string)
    (p : gmap string Z) : framed R (containers_run E i n e p).
Proof.
  intros w. unfold containers_run.
  destruct (run_outcome E i e p w); simpl;
    try destruct (existsb _ _); simpl;
    try (apply R_log, ok_run);
    (eapply R_trans; [apply R_log, ok_run | apply R_containers]).
Qed.

Lemma framed_stop_container : framed R (stop_container E).
Proof.
  unfold stop_container.
  apply framed_bind; [apply framed_containers_list | intros listed].
  destruct (existsb _ _); [|apply framed_console_print].
  apply framed_bind; [apply framed_console_print | intros _].
  apply framed_bind; [apply framed_containers_get | intros c].
  apply framed_bind; [apply framed_container_stop | intros _].
  apply framed_container_remove.
Qed.

Lemma framed_run_container (i : string) (e : gmap string string)
    (p : gmap string Z) : framed R (run_container E i e p).
Proof.
  unfold run_container.
  apply framed_bind; [apply framed_containers_list | intros listed].
  apply framed_bind.
  { destruct (existsb _ _); [apply framed_stop_container | apply framed_ret]. }
  intros _. apply framed_bind; [apply framed_console_print | intros _].
  apply framed_containers_run.
Qed.

(** *** The commands *)



End Frame.

(** *** The two instances *)

Lemma grown_by_refl okev w : grown_by okev w w.
Proof. exists []. split; [now rewrite app_nil_r | constructor]. Qed.

Lemma grown_by_trans okev w1 w2 w3 :
  grown_by okev w1 w2 -> grown_by okev w2 w3 -> grown_by okev w1 w3.
Proof.
  intros (e1 & H1 & F1) (e2 & H2 & F2). exists (e1 ++ e2)%list. split.
  - now rewrite H2, H1, app_assoc.
  - apply Forall_app. now split.
Qed.

Lemma grown_by_log (okev : Event -> Prop) ev w : okev ev -> grown_by okev w (log ev w).
Proof. intros H. exists [ev]. split; [reflexivity | now constructor]. Qed.

Lemma grown_by_same_trace okev w w' : trace w' = trace w -> grown_by okev w w'.
Proof. intros H. exists []. split; [now rewrite app_nil_r | constructor]. Qed.

Ltac frame_side :=
  intros; subst; simpl;
  first [ exact I
        | reflexivity
        | apply grown_by_refl
        | eapply grown_by_trans; eassumption
        | apply grown_by_log; assumption
        | apply grown_by_same_trace; reflexivity
        | unfold same_containers in *; simpl; congruence ].

(** The wait and the migration guard leave the containers alone. *)
Lemma wait_for_db_connection_same_containers E url timeout :
  framed same_containers (wait_for_db_connection E url timeout).
Proof.
  apply framed_wait_for_db_connection
    with (okev := fun _ => True) (db := fun _ => True); frame_side.
Qed.

Lemma upgrade_database_same_containers E cfg :
  framed same_containers (upgrade_database E cfg).
Proof.
  apply framed_upgrade_database
    with (okev := fun _ => True) (db := fun _ => True); try frame_side.
  intros x _. exact I.
Qed.

(** After a successful [run_container] the new container is there,
    running. *)
Lemma run_container_ok_running E i e p w w' :
  run_container E i e p w = (Ok tt, w') ->
  In (mkContainer CONTAINER_NAME Running i e p) (containers w').
Proof.
  assert (Hrun : forall w1,
             containers_run E i CONTAINER_NAME e p w1 = (Ok tt, w') ->
             In (mkContainer CONTAINER_NAME Running i e p) (containers w')).
  { intros w1. unfold containers_run.
    destruct (run_outcome E i e p w1); try discriminate;
      destruct (existsb (named CONTAINER_NAME) (containers w1)); try discriminate;
      intros [= <-]; simpl; apply in_or_app; right; now left. }
  unfold run_container, bind, containers_list, console_print, emit.
  destruct (existsb (named CONTAINER_NAME) (List.filter is_running (containers w))).
  - destruct (stop_container E (log EvContainersList w)) as [[[]|e0] w1];
      [apply Hrun | discriminate].
  - unfold ret. apply Hrun.
Qed.

(** ** The commands *)

(** C7, as the code has it: [start] raises exactly when one of its
    steps raises after the earlier ones returned, and then with the
    exception of that step and in the world that step left, so that the
    later steps have not run.  Nothing is cleaned up: when the wait or
    the migration step raises, the containers are those [run_container]
    left, with the new container running.  A wait that reaches its
    timeout is no such failure: it returns, sixty seconds or more after
    it began, and [start] goes on with the migration step. *)
Theorem start_failure_propagates E ctx w :
  let conf := config ctx in
  let pull := ensure_image_exists E (image_name conf) in
  let run := run_container E (image_name conf) (container_env conf)
               (port_mapping conf) in
  let wait := wait_for_db_connection E (engine_url conf) 60 in
  let migrate := upgrade_database E (alembic_cfg ctx) in
  (forall e w',
      pull w = (Raise e, w')
      \/ (exists w1, pull w = (Ok tt, w1) /\ run w1 = (Raise e, w'))
      \/ (exists w1 w2,
            pull w = (Ok tt, w1) /\ run w1 = (Ok tt, w2)
            /\ wait w2 = (Raise e, w'))
      \/ (exists w1 w2 w3,
            pull w = (Ok tt, w1) /\ run w1 = (Ok tt, w2)
            /\ wait w2 = (Ok tt, w3) /\ migrate w3 = (Raise e, w'))
      <-> start E ctx w = (Raise e, w'))
  /\ (forall w1 w2 e w',
        pull w = (Ok tt, w1) ->
        run w1 = (Ok tt, w2) ->
        wait w2 = (Raise e, w')
        \/ (exists w3, wait w2 = (Ok tt, w3) /\ migrate w3 = (Raise e, w')) ->
        containers w' = containers w2
        /\ In (mkContainer CONTAINER_NAME Running (image_name conf)
                 (container_env conf) (port_mapping conf)) (containers w'))
  /\ (forall w1 w2,
        pull w = (Ok tt, w1) ->
        run w1 = (Ok tt, w2) ->
        (forall w', connect_outcome E (engine_url conf) w' = Unreachable) ->
        exists w3,
          wait w2 = (Ok tt, w3)
          /\ 60 * 1000 <= clock w3 - clock w2
          /\ start E ctx w = migrate w3).
Proof.
  intros conf pull run wait migrate.
  assert (Hstart : start E ctx w
                   = (pull >> run >> wait >> migrate) w) by reflexivity.
  split; [|split].
  - intros e w'. rewrite Hstart. unfold bind. split.
    + intros [H1|[(w1 & H1 & H2)|[(w1 & w2 & H1 & H2 & H3)
                                 |(w1 & w2 & w3 & H1 & H2 & H3 & H4)]]].
      * now rewrite H1.
      * now rewrite H1, H2.
      * now rewrite H1, H2, H3.
      * now rewrite H1, H2, H3.
    + destruct (pull w) as [[[]|e1] w1] eqn:H1; [|intros [= <- <-]; now left].
      destruct (run w1) as [[[]|e2] w2] eqn:H2;
        [|intros [= <- <-]; right; left; exists w1; now split].
      destruct (wait w2) as [[[]|e3] w3] eqn:H3.
      * intros H4. do 3 right. exists w1, w2, w3. now repeat split.
      * intros [= <- <-]. do 2 right. left. exists w1, w2. now repeat split.
  - intros w1 w2 e w' _ H2 H.
    pose proof (run_container_ok_running _ _ _ _ _ _ H2) as Hin.
    pose proof (wait_for_db_connection_same_containers E (engine_url conf) 60 w2) as Hw.
    unfold same_containers in Hw. fold wait in Hw.
    assert (Hsame : containers w' = containers w2).
    { destruct H as [H3|(w3 & H3 & H4)]; rewrite H3 in Hw; simpl in Hw.
      - exact Hw.
      - pose proof (upgrade_database_same_containers E (alembic_cfg ctx) w3) as Hu.
        unfold same_containers in Hu. fold migrate in Hu. rewrite H4 in Hu.
        simpl in Hu. congruence. }
    split; [exact Hsame|]. rewrite Hsame. exact Hin.
  - intros w1 w2 H1 H2 Hout.
    destruct (wait_for_db_connection_loop E (engine_url conf) 60 w2)
      as ([r w3] & Hloop & Hwait).
    apply (wait_loop_unreachable_ok E _ _ _ Hout) in Hloop as [-> Hclock].
    exists w3. fold wait in Hwait. split; [exact Hwait|]. split; [exact Hclock|].
    rewrite Hstart. unfold bind. now rewrite H1, H2, Hwait.
Qed.

Lemma start_failure_propagates_witness :
  (let E := failing_upgrade in
   let e := Exn (BoundaryError "MigrationApplyError") [] in
   let w' := snd (start E sample_ctx sample_world) in
   start E sample_ctx sample_world = (Raise e, w')
   /\ In (mkContainer CONTAINER_NAME Running "postgres:15"
            (container_env (config sample_ctx)) (port_mapping (config sample_ctx)))
         (containers w'))
  /\ (let E := unreachable 0 in
      exists w3,
        60 * 1000 <= clock w3 - clock sample_world
        /\ start E sample_ctx sample_world
           = upgrade_database E (alembic_cfg sample_ctx) w3).
Proof.
  pose (w1 := snd (ensure_image_exists calm "postgres:15" sample_world)).
  pose (w2 := snd (run_container calm "postgres:15"
                     (container_env (config sample_ctx))
                     (port_mapping (config sample_ctx)) w1)).
  pose (w3 := snd (wait_for_db_connection calm sample_url 60 w2)).
  split.
  - cbv zeta.
    destruct (start_failure_propagates failing_upgrade sample_ctx sample_world)
      as (Hraise & Hkeep & _).
    split.
    + apply Hraise. do 3 right. exists w1, w2, w3.
      split; [|split; [|split]]; vm_compute; reflexivity.
    + refine (proj2 (Hkeep w1 w2 (Exn (BoundaryError "MigrationApplyError") [])
                       (snd (start failing_upgrade sample_ctx sample_world))
                       _ _ _)).
      * vm_compute. reflexivity.
      * vm_compute. reflexivity.
      * right. exists w3. split; vm_compute; reflexivity.
  - cbv zeta.
    destruct (start_failure_propagates (unreachable 0) sample_ctx sample_world)
      as (_ & _ & Hgo).
    destruct (Hgo w1 w2) as (w3' & _ & Hclock & Hstart).
    + vm_compute. reflexivity.
    + vm_compute. reflexivity.
    + reflexivity.
    + exists w3'. split; [exact Hclock|exact Hstart].
Defined.

(** C7 as stated fails: against a database that never accepts a
    connection the wait gives up after sixty attempts, and [start] does
    not end there: it queries the history, applies the migrations and
    returns normally. *)
Lemma start_migrates_after_wait_timeout :
  let r := start (unreachable 0) sample_ctx sample_world in
  fst r = Ok tt
  /\ List.filter is_database_event (trace (snd r))
     = (List.repeat (EvConnect sample_url) 60
        ++ [EvCurrent sample_url; EvUpgrade sample_url "head"])%list
  /\ clock (snd r) - clock sample_world = 60 * 1000.
Proof. vm_compute. repeat split. Qed.

(** The cleanup of [auto] begins with the container listing of
    [stop_container]. *)
Lemma stop_container_lists_first E w :
  exists evs, trace (snd (stop_container E w)) = (trace w ++ EvContainersList :: evs)%list.
Proof.
  unfold stop_container, bind, containers_list, console_print, emit,
    containers_get, container_stop, container_remove.
  repeat (match goal with
          | |- context [match ?x with _ => _ end] =>
              lazymatch x with
              | context [match _ with _ => _ end] => fail
              | _ => destruct x
              end
          end; simpl);
    eexists; rewrite <- ?app_assoc; simpl; reflexivity.
Qed.

(** C4: in [auto], [stop] runs after the body on every exit, whether
    the body returned or raised.  An exception of the body is the one
    [auto] raises when the cleanup returns; when the cleanup raises
    too, its exception is raised with the body's as context, so that
    both are reported.  An exception of [start] is an exception of the
    body: the revision is not created. *)
Theorem auto_runs_stop_on_every_exit E ctx message w :
  let body :=
    start E ctx >>
    create_migration E (alembic_cfg ctx) message >>
    console_print "[green]Great success!" in
  let w1 := snd (body w) in
  let w2 := snd (stop E w1) in
  snd (auto E ctx message w) = w2
  /\ (exists evs, trace w2 = (trace w1 ++ EvContainersList :: evs)%list)
  /\ match fst (body w), fst (stop E w1) with
     | Ok _, Ok _ => fst (auto E ctx message w) = Ok tt
     | Ok _, Raise e2 => fst (auto E ctx message w) = Raise e2
     | Raise e, Ok _ => fst (auto E ctx message w) = Raise e
     | Raise e, Raise e2 =>
         exists e', fst (auto E ctx message w) = Raise e'
                    /\ kind_of e' = kind_of e2
                    /\ chain e' = (chain e2 ++ chain e)%list
     end
  /\ (forall e ws, start E ctx w = (Raise e, ws) -> body w = (Raise e, ws)).
Proof.
  intros body w1 w2.
  assert (Hauto : auto E ctx message w = try_finally body (stop E) w) by reflexivity.
  rewrite Hauto. unfold try_finally. subst w2 w1.
  split; [|split; [|split]].
  - destruct (body w) as [[[]|e] w1]; simpl;
      destruct (stop E w1) as [[[]|e2] w2]; reflexivity.
  - apply stop_container_lists_first.
  - destruct (body w) as [[[]|e] w1]; simpl;
      destruct (stop E w1) as [[[]|e2] w2]; simpl; try reflexivity.
    exists (raised_during e e2). repeat split.
  - intros e ws Hstart. subst body. unfold bind at 1. now rewrite Hstart.
Qed.

(** [auto] when the migration fails and the cleanup fails too: the
    exception of the cleanup is raised, with the exception of the
    migration as its context, and the revision was not created. *)
Example auto_reports_both_failures :
  let r := auto failing_upgrade_and_stop sample_ctx "add users table" sample_world in
  fst r = Raise (Exn (BoundaryError "ContainerStopError")
                   [BoundaryError "MigrationApplyError"])
  /\ ~ In (EvRevision sample_url "add users table") (trace (snd r))
  /\ In (EvContainerStop CONTAINER_NAME) (trace (snd r)).
Proof.
  vm_compute. split; [reflexivity|]. split.
  - intros H. repeat (destruct H as [H|H]; [discriminate|]). exact H.
  - do 16 right. now left.
Qed.

(** ** One database *)




(** ** Configuration *)

Lemma split_length (c : ascii) (s : string) :
  length (PyStr.split c s) = S (PyStr.count c s).
Proof.
  induction s as [|d s IH]; [reflexivity|]. simpl.
  destruct (Ascii.eqb d c); simpl; [now rewrite IH|].
  destruct (PyStr.split c s); simpl in *; [discriminate | exact IH].
Qed.

Lemma dict_of_pairs_is_Some (pairs : list (list string)) :
  forall acc, is_Some (dict_of_pairs pairs acc)
              <-> Forall (fun p => length p = 2%nat) pairs.
Proof.
  induction pairs as [|p rest IH]; intros acc.
  - simpl. split; [constructor | eauto].
  - destruct p as [|k [|v [|x tl]]]; simpl.
    + split; [intros [? ?]; discriminate | intros H; inversion H; discriminate].
    + split; [intros [? ?]; discriminate | intros H; inversion H; discriminate].
    + rewrite IH. split; [now constructor | intros H; now inversion H].
    + split; [intros [? ?]; discriminate | intros H; inversion H; discriminate].
Qed.

(** [parse_as_dict] accepts exactly the well-formed encodings. *)
Lemma parse_as_dict_is_Some (value : string) :
  is_Some (parse_as_dict value) <-> well_formed value.
Proof.
  unfold parse_as_dict, well_formed. fold (segments value).
  rewrite dict_of_pairs_is_Some, Forall_map, List.Forall_forall.
  split; intros H seg Hin; specialize (H seg Hin);
    rewrite split_length in *; lia.
Qed.

Lemma malformed_not_well_formed (value : string) :
  malformed value -> ~ well_formed value.
Proof.
  intros (seg & Hin & Hne & Hcount) Hwf. apply Hcount, Hwf.
  unfold segments. apply filter_In. split; [exact Hin|].
  now destruct seg.
Qed.

Lemma parse_as_dict_malformed (value : string) :
  malformed value -> parse_as_dict value = None.
Proof.
  intros Hmal. destruct (parse_as_dict value) eqn:H; [|reflexivity].
  exfalso. apply (malformed_not_well_formed _ Hmal).
  apply parse_as_dict_is_Some. rewrite H. eauto.
Qed.

(** A section whose env or port mapping is malformed is rejected. *)
Lemma parse_obj_malformed E (section : gmap string string) (value : string) :
  section !! "container_env" = Some value \/ section !! "port_mapping" = Some value ->
  malformed value ->
  exists bad, parse_obj E section = inr bad.
Proof.
  intros Hfield Hmal. apply parse_as_dict_malformed in Hmal.
  unfold parse_obj, field.
  destruct Hfield as [H|H]; rewrite H, Hmal; unfold collect_fields;
    repeat (match goal with
            | |- context [match ?x with _ => _ end] =>
                lazymatch x with
                | context [match _ with _ => _ end] => fail
                | _ => destruct x
                end
            end); eauto.
Qed.

(** What an accepted section looks like. *)
Lemma parse_obj_accepted E (section : gmap string string) (conf : Config) :
  parse_obj E section = inl conf ->
  section !! "image_name" = Some (image_name conf)
  /\ section !! "engine_url" = Some (engine_url conf)
  /\ (exists value,
        section !! "container_env" = Some value
        /\ well_formed value
        /\ parse_as_dict value = Some (container_env conf))
  /\ (exists value d,
        section !! "port_mapping" = Some value
        /\ well_formed value
        /\ parse_as_dict value = Some d
        /\ (forall k v, d !! k = Some v -> is_Some (int_of_str E v))
        /\ (forall k, port_mapping conf !! k
                      = match d !! k with Some v => int_of_str E v | None => None end)).
Proof.
  unfold parse_obj, field, collect_fields.
  destruct (section !! "image_name") as [i|]; [|discriminate].
  destruct (section !! "container_env") as [ev|]; [|discriminate].
  destruct (parse_as_dict ev) as [e|] eqn:He; [|discriminate].
  destruct (section !! "port_mapping") as [pv|]; [|discriminate].
  destruct (parse_as_dict pv) as [d|] eqn:Hd; [|discriminate].
  unfold int_values. destruct (decide _) as [Hall|]; [|discriminate].
  destruct (section !! "engine_url") as [u|]; [|discriminate].
  intros [= <-]. simpl. repeat split.
  - exists ev. repeat split; [|exact He].
    apply parse_as_dict_is_Some. rewrite He. eauto.
  - exists pv, d. repeat split; [|exact Hd| |].
    + apply parse_as_dict_is_Some. rewrite Hd. eauto.
    + intros k v Hk. exact (Hall k v Hk).
    + intros k. rewrite lookup_omap. now destruct (d !! k).
Qed.

(** C9, as the code has it: an accepted [Config] has its four fields
    present in the section, both mappings given as well-formed
    encodings, and every port value one the integer validation reads;
    nothing asks for non-empty fields or positive ports.  A section
    that, as the parser reads it, has a malformed env or port mapping
    stops the application in the callback, with a configuration error,
    before any command has done anything. *)
Theorem config_parsing_spec :
  (forall E section conf,
      parse_obj E section = inl conf ->
      section !! "image_name" = Some (image_name conf)
      /\ section !! "engine_url" = Some (engine_url conf)
      /\ (exists value,
            section !! "container_env" = Some value
            /\ well_formed value
            /\ parse_as_dict value = Some (container_env conf))
      /\ (exists value d,
            section !! "port_mapping" = Some value
            /\ well_formed value
            /\ parse_as_dict value = Some d
            /\ (forall k v, d !! k = Some v -> is_Some (int_of_str E v))
            /\ (forall k, port_mapping conf !! k
                          = match d !! k with
                            | Some v => int_of_str E v
                            | None => None
                            end)))
  /\ (forall E ini cmd w section value,
        is_Some (ini !! INI_SECTION_NAME) ->
        get_section E (mkAlembicCfg ini SysStdout) INI_SECTION_NAME = Some section ->
        section !! "container_env" = Some value
        \/ section !! "port_mapping" = Some value ->
        malformed value ->
        exists bad,
          app E ini cmd w
          = (Raise (Exn (ClickException (ValidationFailed bad)) [ValidationError]), w)).
Proof.
  split; [exact parse_obj_accepted|].
  intros E ini cmd w section value Hsec Hget Hfield Hmal.
  destruct (parse_obj_malformed E section value Hfield Hmal) as [bad Hbad].
  exists bad. unfold app, bind, initialize_alembic_cfg, has_section.
  cbn [file_config].
  change (negb (String.eqb INI_SECTION_NAME DEFAULT)) with true. cbn [andb].
  rewrite bool_decide_eq_true_2 by exact Hsec. cbn [negb].
  now rewrite Hget, Hbad.
Qed.

Lemma malformed_section_read :
  get_section calm (mkAlembicCfg malformed_ini SysStdout) INI_SECTION_NAME
  = Some (<["here" := "/srv/app"]> malformed_section).
Proof. vm_compute. reflexivity. Qed.

Lemma config_parsing_spec_witness :
  (sample_section !! "image_name" = Some (image_name (config sample_ctx))
   /\ sample_section !! "engine_url" = Some (engine_url (config sample_ctx))
   /\ (exists value,
         sample_section !! "container_env" = Some value
         /\ well_formed value
         /\ parse_as_dict value = Some (container_env (config sample_ctx)))
   /\ (exists value d,
         sample_section !! "port_mapping" = Some value
         /\ well_formed value
         /\ parse_as_dict value = Some d
         /\ (forall k v, d !! k = Some v -> is_Some (int_of_str calm v))
         /\ (forall k, port_mapping (config sample_ctx) !! k
                       = match d !! k with
                         | Some v => int_of_str calm v
                         | None => None
                         end)))
  /\ (exists bad,
        app calm malformed_ini CmdStart empty_world
        = (Raise (Exn (ClickException (ValidationFailed bad)) [ValidationError]),
           empty_world)).
Proof.
  split.
  - apply (proj1 config_parsing_spec calm sample_section (config sample_ctx)).
    vm_compute. reflexivity.
  - apply (proj2 config_parsing_spec calm malformed_ini CmdStart empty_world
             (<["here" := "/srv/app"]> malformed_section)
             "POSTGRES_PASSWORD=x;DEBUG").
    + vm_compute. eauto.
    + exact malformed_section_read.
    + left. vm_compute. reflexivity.
    + exists "DEBUG". split; [right; now left|]. split; [discriminate|].
      simpl. discriminate.
Defined.

(** C9 as stated fails: a section with an empty image name, an empty
    environment, an empty URL and the ports 0 and -1 is accepted. *)
Lemma parse_obj_accepts_empty_fields_and_nonpositive_ports :
  exists conf,
    parse_obj calm degenerate_section = inl conf
    /\ image_name conf = ""
    /\ container_env conf = ∅
    /\ engine_url conf = ""
    /\ port_mapping conf !! "80" = Some 0
    /\ port_mapping conf !! "81" = Some (-1).
Proof.
  eexists. split; [vm_compute; reflexivity|]. repeat split.
Qed.

(** * Further properties *)

(** ** The text of a mapping *)

Lemma count_app (c : ascii) (s t : string) :
  PyStr.count c (s ++ t) = (PyStr.count c s + PyStr.count c t)%nat.
Proof.
  induction s as [|d s IH]; [reflexivity|].
  rewrite app_cons. simpl. rewrite IH. lia.
Qed.

Lemma split_plain (c : ascii) (s : string) :
  PyStr.count c s = 0%nat -> PyStr.split c s = [s].
Proof.
  induction s as [|d s IH]; [reflexivity|]. simpl.
  destruct (Ascii.eqb d c); [discriminate|]. intros H.
  now rewrite IH.
Qed.

(** Splitting distributes over a separator. *)
Lemma split_app (c : ascii) (s t : string) :
  PyStr.split c (s ++ String c t) = (PyStr.split c s ++ PyStr.split c t)%list.
Proof.
  induction s as [|d s IH].
  - simpl. now rewrite Ascii.eqb_refl.
  - rewrite app_cons. simpl. destruct (Ascii.eqb d c).
    + now rewrite IH.
    + rewrite IH. pose proof (split_length c s) as Hlen.
      destruct (PyStr.split c s); [discriminate | reflexivity].
Qed.

Lemma segments_app (s t : string) :
  segments (s ++ String ";" t) = (segments s ++ segments t)%list.
Proof. unfold segments. now rewrite split_app, List.filter_app. Qed.

Lemma dict_of_pairs_app (p q : list (list string)) :
  forall acc,
    dict_of_pairs (p ++ q) acc
    = match dict_of_pairs p acc with
      | Some m => dict_of_pairs q m
      | None => None
      end.
Proof.
  induction p as [|x p IH]; intros acc; [reflexivity|].
  destruct x as [|k [|v [|y tl]]]; simpl; try reflexivity. apply IH.
Qed.

Lemma parse_as_dict_app (s t : string) :
  parse_as_dict (s ++ String ";" t)
  = match parse_as_dict s with
    | Some m => dict_of_pairs (map (PyStr.split "=") (segments t)) m
    | None => None
    end.
Proof.
  unfold parse_as_dict. fold (segments (s ++ String ";" t)). fold (segments s).
  now rewrite segments_app, map_app, dict_of_pairs_app.
Qed.

Lemma segments_encode_pair (k v : string) :
  plain k -> plain v ->
  map (PyStr.split "=") (segments (k ++ "=" ++ v)) = [[k; v]].
Proof.
  intros [Hk1 Hk2] [Hv1 Hv2]. unfold segments.
  rewrite split_plain.
  2:{ rewrite count_app. change ("=" ++ v) with (String "=" v). simpl. lia. }
  assert (Htruthy : PyStr.truthy (k ++ "=" ++ v) = true) by now destruct k.
  simpl. rewrite Htruthy. simpl.
  change ("=" ++ v) with (String "=" v).
  rewrite split_app, !split_plain by assumption. reflexivity.
Qed.

(** X1: the text [k1=v1;...;kn=vn], with keys and values free of [;]
    and [=], parses to the dict obtained by assigning the pairs from
    left to right. *)
Theorem parse_as_dict_encode_pairs (pairs : list (string * string)) :
  Forall (fun kv => plain (fst kv) /\ plain (snd kv)) pairs ->
  parse_as_dict (encode_pairs pairs) = Some (assign_all pairs ∅).
Proof.
  intros Hplain. unfold parse_as_dict. fold (segments (encode_pairs pairs)).
  generalize (∅ : gmap string string) as acc.
  induction Hplain as [|[k v] rest [Hk Hv] Hrest IH]; intros acc; [reflexivity|].
  destruct rest as [|kv' rest'].
  - simpl encode_pairs. unfold encode_pair. simpl fst; simpl snd.
    now rewrite segments_encode_pair.
  - change (encode_pairs ((k, v) :: kv' :: rest'))
      with ((k ++ "=" ++ v) ++ String ";" (encode_pairs (kv' :: rest'))).
    rewrite segments_app, map_app, segments_encode_pair by assumption.
    rewrite dict_of_pairs_app. cbn [dict_of_pairs]. rewrite IH. reflexivity.
Qed.

Lemma parse_as_dict_encode_pairs_witness :
  parse_as_dict "POSTGRES_USER=app;POSTGRES_PASSWORD=x;POSTGRES_USER=admin"
  = Some (<["POSTGRES_USER" := "admin"]>
            (<["POSTGRES_PASSWORD" := "x"]> (<["POSTGRES_USER" := "app"]> ∅))).
Proof.
  apply (parse_as_dict_encode_pairs
           [("POSTGRES_USER", "app"); ("POSTGRES_PASSWORD", "x");
            ("POSTGRES_USER", "admin")]).
  repeat constructor.
Defined.

(** X2: a further [;k=v] at the end of an accepted text assigns [k],
    replacing the value an earlier segment gave it. *)
Theorem parse_as_dict_append_assigns (s k v : string) (d : gmap string string) :
  parse_as_dict s = Some d ->
  plain k -> plain v ->
  parse_as_dict (s ++ ";" ++ k ++ "=" ++ v) = Some (<[k := v]> d).
Proof.
  intros Hs Hk Hv.
  change (s ++ ";" ++ k ++ "=" ++ v) with (s ++ String ";" (k ++ "=" ++ v)).
  rewrite parse_as_dict_app, Hs, segments_encode_pair by assumption.
  reflexivity.
Qed.

Lemma parse_as_dict_append_assigns_witness :
  parse_as_dict ("A=1;B=2" ++ ";" ++ "A" ++ "=" ++ "3")
  = Some (<["A" := "3"]> (<["B" := "2"]> (<["A" := "1"]> ∅))).
Proof.
  apply (parse_as_dict_append_assigns "A=1;B=2" "A" "3").
  - reflexivity.
  - split; reflexivity.
  - split; reflexivity.
Defined.

(** X3: empty segments do not count: a [;] in front, a [;] at the end
    and a doubled [;] leave the result as it is, and the empty text is
    the empty dict. *)
Theorem parse_as_dict_empty_segments (s t : string) :
  parse_as_dict "" = Some ∅
  /\ parse_as_dict (";" ++ s) = parse_as_dict s
  /\ parse_as_dict (s ++ ";") = parse_as_dict s
  /\ parse_as_dict (s ++ ";;" ++ t) = parse_as_dict (s ++ ";" ++ t).
Proof.
  split; [reflexivity|]. split; [reflexivity|]. split.
  - change (s ++ ";") with (s ++ String ";" ""). rewrite parse_as_dict_app.
    simpl. now destruct (parse_as_dict s).
  - change (s ++ ";;" ++ t) with (s ++ String ";" (String ";" t)).
    change (s ++ ";" ++ t) with (s ++ String ";" t).
    now rewrite !parse_as_dict_app.
Qed.

(** ** Validation *)

(** X4: a section is accepted as soon as the four options are there,
    both mappings are well-formed and the integer validation reads
    every port value; the [Config] holds the options as given and the
    parsed mappings. *)
Theorem parse_obj_accepts E (section : gmap string string) (i ev pv u : string)
    (d : gmap string string) :
  section !! "image_name" = Some i ->
  section !! "container_env" = Some ev ->
  well_formed ev ->
  section !! "port_mapping" = Some pv ->
  parse_as_dict pv = Some d ->
  (forall k v, d !! k = Some v -> is_Some (int_of_str E v)) ->
  section !! "engine_url" = Some u ->
  exists conf,
    parse_obj E section = inl conf
    /\ image_name conf = i
    /\ engine_url conf = u
    /\ parse_as_dict ev = Some (container_env conf)
    /\ port_mapping conf = omap (int_of_str E) d.
Proof.
  intros Hi Hev Hwf Hpv Hd Hint Hu.
  apply parse_as_dict_is_Some in Hwf as [e He].
  unfold parse_obj, field, collect_fields, int_values.
  rewrite Hi, Hev, He, Hpv, Hd, Hu.
  destruct (decide _) as [Hall|Hnot].
  - eexists. split; [reflexivity|]. simpl. auto.
  - destruct Hnot. intros k v Hk. exact (Hint k v Hk).
Qed.

Lemma parse_obj_accepts_witness :
  exists conf,
    parse_obj calm sample_section = inl conf
    /\ image_name conf = "postgres:15"
    /\ engine_url conf = sample_url
    /\ parse_as_dict "POSTGRES_PASSWORD=x" = Some (container_env conf)
    /\ port_mapping conf = omap (int_of_str calm) (<["5432" := "5432"]> ∅).
Proof.
  apply (parse_obj_accepts calm sample_section "postgres:15" "POSTGRES_PASSWORD=x"
           "5432=5432" sample_url (<["5432" := "5432"]> ∅)).
  - reflexivity.
  - reflexivity.
  - apply parse_as_dict_is_Some. vm_compute. eauto.
  - reflexivity.
  - vm_compute. reflexivity.
  - intros k v Hk. apply lookup_insert_Some in Hk as [[_ <-]|[_ Hk]].
    + vm_compute. eauto.
    + rewrite lookup_empty in Hk. discriminate.
  - reflexivity.
Defined.

(** Rejection reports every field that failed, in declaration order. *)
Lemma collect_fields_rejects (img : option string) (env : option (gmap string string))
    (prt : option (gmap string Z)) (url : option string) :
  img = None \/ env = None \/ prt = None \/ url = None ->
  collect_fields img env prt url
  = inr (field_errors "image_name" img ++ field_errors "container_env" env
         ++ field_errors "port_mapping" prt ++ field_errors "engine_url" url)%list.
Proof.
  intros H. destruct img, env, prt, url; try reflexivity.
  destruct H as [H|[H|[H|H]]]; discriminate.
Qed.

(** X5: a section that lacks one of the four options is rejected, and
    the option is among the fields reported. *)
Theorem parse_obj_missing_option E (section : gmap string string) (f : string) :
  In f ["image_name"; "container_env"; "port_mapping"; "engine_url"] ->
  section !! f = None ->
  exists bad, parse_obj E section = inr bad /\ In f bad.
Proof.
  intros Hf Hnone. unfold parse_obj. eexists.
  destruct Hf as [<-|[<-|[<-|[<-|[]]]]].
  all: rewrite collect_fields_rejects by (unfold field; rewrite Hnone; auto).
  all: split; [reflexivity|].
  all: unfold field at 1 2 3 4; rewrite Hnone; rewrite !in_app_iff; simpl; auto 10.
Qed.

Lemma parse_obj_missing_option_witness :
  exists bad, parse_obj calm (delete "engine_url" sample_section) = inr bad
              /\ In "engine_url" bad.
Proof.
  apply (parse_obj_missing_option calm (delete "engine_url" sample_section)
           "engine_url").
  - simpl. auto.
  - apply lookup_delete_eq.
Defined.

(** X6: a port value that the integer validation does not read rejects
    the section, with [port_mapping] among the fields reported. *)
Theorem parse_obj_port_not_integer E (section : gmap string string) (pv k v : string)
    (d : gmap string string) :
  section !! "port_mapping" = Some pv ->
  parse_as_dict pv = Some d ->
  d !! k = Some v ->
  int_of_str E v = None ->
  exists bad, parse_obj E section = inr bad /\ In "port_mapping" bad.
Proof.
  intros Hpv Hd Hk Hint. unfold parse_obj.
  assert (Hprt : field section "port_mapping"
                   (fun value => match parse_as_dict value with
                                 | Some d => int_values E d
                                 | None => None
                                 end) = None).
  { unfold field, int_values. rewrite Hpv, Hd.
    destruct (decide _) as [Hall|_]; [|reflexivity].
    specialize (Hall k v Hk). simpl in Hall. rewrite Hint in Hall.
    destruct Hall as [? ?]. discriminate. }
  rewrite collect_fields_rejects by auto. rewrite Hprt.
  eexists. split; [reflexivity|]. rewrite !in_app_iff. simpl. auto 10.
Qed.

Lemma parse_obj_port_not_integer_witness :
  exists bad,
    parse_obj calm (<["port_mapping" := "5432=5432/tcp"]> sample_section) = inr bad
    /\ In "port_mapping" bad.
Proof.
  apply (parse_obj_port_not_integer calm
           (<["port_mapping" := "5432=5432/tcp"]> sample_section)
           "5432=5432/tcp" "5432" "5432/tcp" (<["5432" := "5432/tcp"]> ∅)).
  - apply lookup_insert_eq.
  - vm_compute. reflexivity.
  - apply lookup_insert_eq.
  - vm_compute. reflexivity.
Defined.

(** ** More on the callback *)

(** X7: the application either runs the command with the context the
    callback built, in a world that differs by the new buffer only, or
    raises without having done anything.  What it raises is a
    [ClickException] for a missing section (exactly when the ini file
    has no [dbless] section), an [InterpolationError] of the parser for
    a section it cannot read, a [ClickException] raised while a
    [ValidationError] is handled, or the [ValueError] with which the
    parser refuses the [engine_url] of an accepted section. *)
Theorem app_runs_or_rejects E ini cmd w :
  (exists ctx,
      initialize_alembic_cfg E ini w
      = (Ok ctx, set_streams (streams w ++ [StringIO_.fresh]) w)
      /\ app E ini cmd w
         = (match cmd with
            | CmdStart => start E ctx
            | CmdStop => stop E
            | CmdAuto message => auto E ctx message
            end) (set_streams (streams w ++ [StringIO_.fresh]) w))
  \/ (exists e,
        app E ini cmd w = (Raise e, w)
        /\ (e = Exn (ClickException SectionMissing) []
            \/ e = Exn InterpolationError []
            \/ (exists bad, e = Exn (ClickException (ValidationFailed bad))
                                  [ValidationError])
            \/ e = Exn ValueError [])
        /\ (e = Exn (ClickException SectionMissing) []
            <-> ini !! INI_SECTION_NAME = None)
        /\ (e = Exn ValueError [] ->
            exists section conf,
              get_section E (mkAlembicCfg ini SysStdout) INI_SECTION_NAME
              = Some section
              /\ parse_obj E section = inl conf
              /\ before_set (engine_url conf) = false)).
Proof.
  destruct (initialize_alembic_cfg E ini w) as [[ctx|e] w0] eqn:Hinit.
  - left. exists ctx.
    destruct (initialize_alembic_cfg_ok _ _ _ _ _ Hinit)
      as (s & cfg & _ & _ & _ & _ & _ & ->).
    split; [reflexivity|]. unfold app, bind. now rewrite Hinit.
  - right. exists e. unfold app, bind. rewrite Hinit.
    unfold initialize_alembic_cfg, has_section in Hinit. cbn [file_config] in Hinit.
    change (negb (String.eqb INI_SECTION_NAME DEFAULT)) with true in Hinit.
    cbn [andb] in Hinit.
    destruct (ini !! INI_SECTION_NAME) as [raw|] eqn:Hsec.
    2:{ rewrite bool_decide_eq_false_2 in Hinit by (intros [? ?]; discriminate).
        injection Hinit as <- <-.
        split; [reflexivity|]. split; [now left|].
        split; [split; reflexivity|discriminate]. }
    rewrite bool_decide_eq_true_2 in Hinit by eauto. cbn [negb] in Hinit.
    destruct (get_section E _ INI_SECTION_NAME) as [section|] eqn:Hget.
    2:{ injection Hinit as <- <-.
        split; [reflexivity|]. split; [right; now left|].
        split; [split; discriminate|discriminate]. }
    destruct (parse_obj E section) as [conf|bad] eqn:Hparse.
    2:{ injection Hinit as <- <-.
        split; [reflexivity|]. split; [do 2 right; left; eauto|].
        split; [split; discriminate|discriminate]. }
    unfold set_main_option in Hinit.
    destruct (before_set (engine_url conf)) eqn:Hset; [discriminate|].
    injection Hinit as <- <-.
    split; [reflexivity|]. split; [now do 3 right|].
    split; [split; discriminate|]. intros _. exists section, conf. auto.
Qed.

(** X8: the callback changes one thing in the Alembic configuration,
    the stored value of the main option [sqlalchemy.url], which becomes
    the [engine_url]: the other sections and the other stored main
    options are those of the ini file, and a main option of another
    name whose stored value holds no [%] is read with that value.  In
    the world it allocates the buffer and does nothing else. *)
Theorem initialize_alembic_cfg_keeps_the_rest E ini w ctx w0 :
  initialize_alembic_cfg E ini w = (Ok ctx, w0) ->
  (forall section, section <> config_ini_section ->
                   file_config (alembic_cfg ctx) !! section = ini !! section)
  /\ (forall option_name,
         option_name <> "sqlalchemy.url" ->
         raw_section (alembic_cfg ctx) config_ini_section !! option_name
         = raw_section (mkAlembicCfg ini SysStdout) config_ini_section !! option_name)
  /\ raw_section (alembic_cfg ctx) config_ini_section !! "sqlalchemy.url"
     = Some (engine_url (config ctx))
  /\ (forall option_name value,
         str_lower E option_name <> "sqlalchemy.url" ->
         unify_values (mkAlembicCfg ini SysStdout) config_ini_section
           !! str_lower E option_name = Some value ->
         PyStr.has_percent value = false ->
         get_main_option E (alembic_cfg ctx) option_name = Ok (Some value))
  /\ images w0 = images w /\ containers w0 = containers w
  /\ clock w0 = clock w /\ trace w0 = trace w
  /\ streams w0 = (streams w ++ [StringIO_.fresh])%list.
Proof.
  intros Hinit.
  destruct (initialize_alembic_cfg_ok _ _ _ _ _ Hinit)
    as (s & cfg & _ & _ & _ & Hset & -> & ->).
  unfold set_main_option in Hset.
  destruct (before_set _); [|discriminate]. injection Hset as <-.
  change (str_lower E "sqlalchemy.url") with "sqlalchemy.url".
  split; [|split; [|split; [|split]]].
  - intros section Hne. cbn. now rewrite lookup_insert_ne.
  - intros option_name Hne. unfold raw_section. cbn.
    rewrite lookup_insert_eq. cbn. now rewrite lookup_insert_ne.
  - unfold raw_section. cbn. rewrite lookup_insert_eq. cbn.
    apply lookup_insert_eq.
  - intros option_name value Hne Hval Hplain.
    unfold get_main_option, has_section, unify_values, raw_section in *.
    cbn [file_config set_stdout] in *. rewrite lookup_insert_eq.
    rewrite bool_decide_eq_true_2 by eauto. cbn [negb andb default].
    change (String.eqb config_ini_section DEFAULT) with false. cbn [negb andb].
    rewrite lookup_insert_ne by discriminate.
    match goal with
    | |- context [?m !! str_lower E option_name] =>
        replace (m !! str_lower E option_name) with (Some value)
    end.
    + unfold MAX_INTERPOLATION_DEPTH. now rewrite interpolate_plain.
    + rewrite <- Hval. unfold id.
      rewrite !lookup_union, lookup_insert_ne by congruence. reflexivity.
  - repeat split.
Qed.

Lemma initialize_alembic_cfg_keeps_the_rest_witness :
  raw_section (alembic_cfg sample_ctx) config_ini_section !! "script_location"
  = Some "%(here)s/migrations"
  /\ file_config (alembic_cfg sample_ctx) !! INI_SECTION_NAME = Some sample_section
  /\ get_main_option calm (alembic_cfg sample_ctx) "here" = Ok (Some "/srv/app").
Proof.
  destruct (initialize_alembic_cfg_keeps_the_rest calm sample_ini empty_world
              sample_ctx sample_world sample_initialize)
    as (Hsec & Hopt & _ & Hread & _).
  split; [|split].
  - rewrite (Hopt "script_location") by discriminate. vm_compute. reflexivity.
  - rewrite (Hsec INI_SECTION_NAME) by discriminate. vm_compute. reflexivity.
  - apply Hread.
    + discriminate.
    + vm_compute. reflexivity.
    + reflexivity.
Defined.

(** ** Containers of other names *)

Lemma others_stop_all (n : string) (cs : list Container) :
  others n (stop_all n cs) = others n cs.
Proof.
  induction cs as [|c cs IH]; [reflexivity|]. simpl.
  destruct (named n c) eqn:Hc.
  - unfold named in *. rewrite name_stopped, Hc. simpl. exact IH.
  - rewrite Hc. simpl. now rewrite IH.
Qed.

Lemma others_remove_all (n : string) (cs : list Container) :
  others n (remove_all n cs) = others n cs.
Proof.
  induction cs as [|c cs IH]; [reflexivity|]. simpl.
  destruct (named n c) eqn:Hc; simpl; [exact IH|].
  rewrite Hc. simpl. now rewrite IH.
Qed.

Lemma others_app_named (n : string) (cs : list Container) (c : Container) :
  named n c = true -> others n (cs ++ [c]) = others n cs.
Proof.
  intros Hc. unfold others. rewrite List.filter_app. simpl. rewrite Hc. simpl.
  apply app_nil_r.
Qed.

Lemma same_others_refl w : same_others w w.
Proof. reflexivity. Qed.

Lemma same_others_trans w1 w2 w3 :
  same_others w1 w2 -> same_others w2 w3 -> same_others w1 w3.
Proof. unfold same_others. congruence. Qed.

Ltac others_side :=
  intros; unfold same_others in *; simpl; first [reflexivity | congruence | exact I].

Lemma stop_container_same_others E : framed same_others (stop_container E).
Proof.
  intros w.
  unfold same_others, stop_container, bind, containers_list, console_print, emit,
    containers_get, container_stop, container_remove.
  destruct (existsb _ _); simpl; [|reflexivity].
  destruct (List.find (named CONTAINER_NAME) (containers w)) as [c|] eqn:Hfind;
    simpl; [|reflexivity].
  destruct (find_named _ _ _ Hfind) as [-> _].
  destruct (stop_outcome E CONTAINER_NAME _); simpl; [reflexivity|].
  rewrite find_stop_all, Hfind. simpl.
  rewrite is_running_stopped.
  destruct (remove_outcome E CONTAINER_NAME _); simpl.
  - apply others_stop_all.
  - now rewrite others_remove_all, others_stop_all.
Qed.

Lemma containers_run_same_others E i e p :
  framed same_others (containers_run E i CONTAINER_NAME e p).
Proof.
  intros w. unfold same_others, containers_run.
  destruct (run_outcome E i e p w); simpl; try reflexivity;
    destruct (existsb _ _); simpl; try reflexivity;
    now apply others_app_named.
Qed.

Lemma run_container_same_others E i e p :
  framed same_others (run_container E i e p).
Proof.
  unfold run_container.
  apply framed_bind; [apply same_others_trans| |intros listed].
  { apply framed_containers_list with (okev := fun _ => True); others_side. }
  apply framed_bind; [apply same_others_trans| |intros _].
  { destruct (existsb _ _); [apply stop_container_same_others|].
    intros w. apply same_others_refl. }
  apply framed_bind; [apply same_others_trans| |intros _].
  { apply framed_console_print with (okev := fun _ => True); others_side. }
  apply containers_run_same_others.
Qed.

Lemma start_same_others E ctx : framed same_others (start E ctx).
Proof.
  unfold start.
  apply framed_bind; [apply same_others_trans| |intros _].
  { apply framed_ensure_image_exists with (okev := fun _ => True);
      first [apply same_others_trans | others_side]. }
  apply framed_bind; [apply same_others_trans| |intros _].
  { apply run_container_same_others. }
  apply framed_bind; [apply same_others_trans| |intros _].
  { apply framed_wait_for_db_connection
      with (okev := fun _ => True) (db := fun _ => True);
      first [apply same_others_trans | others_side]. }
  apply framed_upgrade_database
    with (okev := fun _ => True) (db := fun _ => True);
    first [apply same_others_trans | others_side | (intros x _; exact I)].
Qed.

(** X9: no command touches a container of another name: whatever the
    runtime and the database answer, the containers that are not named
    [dbless] are the same, in the same order, after the application
    has run. *)
Theorem app_leaves_other_containers E ini cmd w :
  others CONTAINER_NAME (containers (snd (app E ini cmd w)))
  = others CONTAINER_NAME (containers w).
Proof.
  change (same_others w (snd (app E ini cmd w))).
  revert w. change (framed same_others (app E ini cmd)). unfold app.
  apply framed_bind; [apply same_others_trans| |intros ctx].
  { intros w. destruct (initialize_alembic_cfg E ini w) as [[ctx|e] w0] eqn:Hinit.
    - destruct (initialize_alembic_cfg_ok _ _ _ _ _ Hinit)
        as (s & cfg & _ & _ & _ & _ & _ & ->).
      reflexivity.
    - rewrite (initialize_alembic_cfg_raises _ _ _ _ _ Hinit). reflexivity. }
  destruct cmd as [| |message].
  - apply start_same_others.
  - apply stop_container_same_others.
  - unfold auto. apply framed_try_finally;
      [apply same_others_trans| |apply stop_container_same_others].
    apply framed_bind; [apply same_others_trans|apply start_same_others|intros _].
    apply framed_bind; [apply same_others_trans| |intros _].
    + apply framed_create_migration
        with (okev := fun _ => True) (db := fun _ => True);
        first [apply same_others_trans | others_side | (intros x _; exact I)].
    + apply framed_console_print with (okev := fun _ => True); others_side.
Qed.

(** ** What the cleanup leaves *)

(** On a runtime that carries out the stop and the removal,
    [stop_container] returns normally and leaves no running container
    of the reserved name. *)
Lemma stop_container_no_running E w :
  (forall w', stop_outcome E CONTAINER_NAME w' = None) ->
  (forall w', remove_outcome E CONTAINER_NAME w' = None) ->
  fst (stop_container E w) = Ok tt
  /\ forall c, In c (containers (snd (stop_container E w))) ->
               name c = CONTAINER_NAME -> status c <> Running.
Proof.
  intros Hstop Hremove.
  destruct (existsb (named CONTAINER_NAME) (List.filter is_running (containers w)))
    eqn:Hlisted.
  - apply listed_running in Hlisted.
    rewrite (stop_container_running E w Hlisted Hstop Hremove). simpl.
    split; [reflexivity|]. intros c Hin Hname.
    apply filter_In in Hin as [_ Hnot]. apply named_name in Hname.
    rewrite Hname in Hnot. discriminate.
  - assert (Hnone : forall c, In c (containers w) -> name c = CONTAINER_NAME ->
                              status c <> Running).
    { intros c Hin Hname Hst.
      assert (Hex : existsb (named CONTAINER_NAME)
                      (List.filter is_running (containers w)) = true).
      { apply listed_running. eauto. }
      congruence. }
    rewrite (stop_container_none_listed E w Hnone). simpl.
    split; [reflexivity | exact Hnone].
Qed.

(** X10: on a runtime that carries out the stop and the removal, [auto]
    ends, whether its body returned or raised, without a running
    container of the reserved name, and its result is the result of
    its body. *)
Theorem auto_leaves_no_running_container E ctx message w :
  (forall w', stop_outcome E CONTAINER_NAME w' = None) ->
  (forall w', remove_outcome E CONTAINER_NAME w' = None) ->
  let body :=
    start E ctx >>
    create_migration E (alembic_cfg ctx) message >>
    console_print "[green]Great success!" in
  fst (auto E ctx message w) = fst (body w)
  /\ forall c, In c (containers (snd (auto E ctx message w))) ->
               name c = CONTAINER_NAME -> status c <> Running.
Proof.
  intros Hstop Hremove body.
  assert (Hauto : auto E ctx message w = try_finally body (stop_container E) w)
    by reflexivity.
  rewrite Hauto. unfold try_finally.
  destruct (body w) as [[[]|e] w1]; simpl;
    destruct (stop_container_no_running E w1 Hstop Hremove) as [Hok Hnone];
    destruct (stop_container E w1) as [[[]|e2] w2]; simpl in *;
    try discriminate; split; auto.
Qed.

Lemma auto_leaves_no_running_container_witness :
  fst (auto failing_upgrade sample_ctx "add users table" sample_world)
  = Raise (Exn (BoundaryError "MigrationApplyError") [])
  /\ forall c,
       In c (containers (snd (auto failing_upgrade sample_ctx "add users table"
                                sample_world))) ->
       name c = CONTAINER_NAME -> status c <> Running.
Proof.
  destruct (auto_leaves_no_running_container failing_upgrade sample_ctx
              "add users table" sample_world) as [Hres Hnone].
  - reflexivity.
  - reflexivity.
  - split; [|exact Hnone]. rewrite Hres. vm_compute. reflexivity.
Defined.

(** X11: [stop] keeps to the containers: it lists them and, at most,
    gets, stops and removes the one of the reserved name; it pulls no
    image, starts no container, does not wait and does not reach the
    database, and leaves images, clock and buffers as they are. *)
Theorem stop_keeps_to_containers E w :
  images (snd (stop E w)) = images w
  /\ clock (snd (stop E w)) = clock w
  /\ streams (snd (stop E w)) = streams w
  /\ grown_by
       (fun ev =>
          match ev with
          | EvPrint _ | EvContainersList => True
          | EvContainersGet n | EvContainerStop n | EvContainerRemove n =>
              n = CONTAINER_NAME
          | _ => False
          end) w (snd (stop E w)).
Proof.
  unfold stop, stop_container, bind, containers_list, console_print, emit,
    containers_get, container_stop, container_remove.
  assert (Hgrown : forall P w' evs,
             trace w' = (trace w ++ evs)%list -> Forall P evs -> grown_by P w w').
  { intros P w' evs Ht Hall. exists evs. now split. }
  destruct (existsb _ _); simpl.
  2:{ repeat split. eapply Hgrown; [simpl; now rewrite <- ?app_assoc|].
      repeat constructor. }
  destruct (List.find (named CONTAINER_NAME) (containers w)) as [c|] eqn:Hfind; simpl.
  2:{ repeat split. eapply Hgrown; [simpl; now rewrite <- ?app_assoc|].
      repeat constructor. }
  destruct (find_named _ _ _ Hfind) as [-> _].
  destruct (stop_outcome E CONTAINER_NAME _); simpl.
  { repeat split. eapply Hgrown; [simpl; now rewrite <- ?app_assoc|].
    repeat constructor. }
  rewrite find_stop_all, Hfind. simpl. rewrite is_running_stopped.
  destruct (remove_outcome E CONTAINER_NAME _); simpl;
    repeat split; (eapply Hgrown; [simpl; now rewrite <- ?app_assoc|]);
    repeat constructor.
Qed.

(** ** More on the wait *)

Lemma wait_loop_attempts E url start_time timeout :
  forall fuel w r w',
    wait_loop E fuel url start_time timeout w = Some (r, w') ->
    exists evs,
      trace w' = (trace w ++ evs)%list
      /\ (length (List.filter is_connect evs) <= fuel)%nat
      /\ (length (List.filter is_connect evs) = length (List.filter is_sleep evs)
          \/ length (List.filter is_connect evs)
             = S (length (List.filter is_sleep evs))).
Proof.
  induction fuel as [|fuel IH]; intros w r w' Hloop.
  - cbn [wait_loop] in Hloop. destruct (_ <? _); [discriminate|].
    injection Hloop as <- <-. exists []. rewrite app_nil_r. simpl. auto.
  - rewrite wait_loop_pass in Hloop.
    destruct (_ <? _).
    2:{ injection Hloop as <- <-. exists []. rewrite app_nil_r. simpl.
        split; [reflexivity|]. split; [lia | auto]. }
    cbv zeta in Hloop. destruct (classify (connect_outcome E url w)).
    + injection Hloop as <- <-.
      exists [EvConnect url; EvPrint "[blue]Connected"; EvDispose url].
      simpl. rewrite <- !app_assoc. split; [reflexivity|]. split; [lia | auto].
    + apply IH in Hloop as (evs & Ht & Hle & Hrel).
      exists (EvConnect url :: EvPrint "[yellow]Trying to connect again..."
                :: EvSleep 1 :: evs).
      split; [|split].
      * rewrite Ht. simpl. now rewrite <- !app_assoc.
      * simpl. lia.
      * simpl. lia.
    + injection Hloop as <- <-. exists [EvConnect url]. simpl.
      split; [reflexivity|]. split; [lia | auto].
Qed.

(** X12: the wait makes at most [timeout] connection attempts (none
    for a timeout that is not positive), and it sleeps once after every
    attempt but, at most, the last. *)
Theorem wait_for_db_connection_attempts E url timeout w :
  exists evs,
    trace (snd (wait_for_db_connection E url timeout w)) = (trace w ++ evs)%list
    /\ (length (List.filter is_connect evs) <= Z.to_nat timeout)%nat
    /\ (length (List.filter is_connect evs) = length (List.filter is_sleep evs)
        \/ length (List.filter is_connect evs)
           = S (length (List.filter is_sleep evs))).
Proof.
  destruct (wait_for_db_connection_loop E url timeout w) as ([r w'] & Hloop & ->).
  apply wait_loop_attempts in Hloop as (evs & Ht & Hle & Hrel).
  exists (EvPrint "[blue]Waiting for db connection" :: evs).
  split; [|split].
  - simpl snd. rewrite Ht. simpl. now rewrite <- app_assoc.
  - exact Hle.
  - exact Hrel.
Qed.

(** X13: with a timeout that is not positive the wait does not try to
    connect at all: it prints its message and returns normally. *)
Theorem wait_for_db_connection_no_time E url timeout w :
  timeout <= 0 ->
  wait_for_db_connection E url timeout w
  = (Ok tt, log (EvPrint "[blue]Waiting for db connection") w).
Proof.
  intros Hle.
  destruct (wait_for_db_connection_loop E url timeout w) as (r & Hloop & ->).
  rewrite wait_loop_done in Hloop by (simpl; lia). congruence.
Qed.

Lemma wait_for_db_connection_no_time_witness :
  wait_for_db_connection (unreachable 700) sample_url 0 empty_world
  = (Ok tt, log (EvPrint "[blue]Waiting for db connection") empty_world).
Proof.
  apply (wait_for_db_connection_no_time (unreachable 700) sample_url 0 empty_world).
  lia.
Defined.

(** X14: with a positive timeout, a first attempt that connects ends
    the wait normally and one that fails with anything but an
    [OperationalError] ends it with that exception; in both cases there
    was one attempt and no sleep.  An [OperationalError] of the first
    attempt is followed by a sleep of a second. *)
Theorem wait_for_db_connection_first_attempt E url timeout w :
  0 < timeout ->
  let w1 := log (EvPrint "[blue]Waiting for db connection") w in
  let w2 := advance (connect_cost E url w1) (log (EvConnect url) w1) in
  (connect_outcome E url w1 = Connected ->
   wait_for_db_connection E url timeout w
   = (Ok tt, log (EvDispose url) (log (EvPrint "[blue]Connected") w2)))
  /\ (forall k, connect_outcome E url w1 = ConnectFailed k ->
                k <> OperationalError ->
                wait_for_db_connection E url timeout w = (Raise (Exn k []), w2))
  /\ (connect_outcome E url w1 = Unreachable
      \/ connect_outcome E url w1 = ConnectFailed OperationalError ->
      exists evs,
        trace (snd (wait_for_db_connection E url timeout w))
        = (trace w ++ [EvPrint "[blue]Waiting for db connection"; EvConnect url;
                       EvPrint "[yellow]Trying to connect again..."; EvSleep 1]
             ++ evs)%list).
Proof.
  intros Hpos w1 w2.
  destruct (wait_for_db_connection_loop E url timeout w) as (r & Hloop & ->).
  fold w1 in Hloop. unfold wait_fuel in Hloop.
  destruct (Z.to_nat timeout) as [|fuel] eqn:Hfuel; [lia|].
  rewrite wait_loop_pass in Hloop.
  assert (Hlt : (clock w1 - clock w <? timeout * 1000) = true).
  { apply Z.ltb_lt. simpl. lia. }
  rewrite Hlt in Hloop. cbv zeta in Hloop. fold w2 in Hloop.
  split; [|split].
  - intros Hc. rewrite Hc in Hloop. cbn [classify] in Hloop. congruence.
  - intros k Hc Hk. rewrite Hc in Hloop.
    assert (Hcl : classify (ConnectFailed k) = ConnectFailed k)
      by (destruct k; try reflexivity; congruence).
    rewrite Hcl in Hloop. congruence.
  - intros Hc.
    assert (Hcl : classify (connect_outcome E url w1) = Unreachable)
      by (destruct Hc as [-> | ->]; reflexivity).
    rewrite Hcl in Hloop. destruct r as [r w'].
    assert (Hgrown : grown_by (fun _ => True)
                       (advance (1 * 1000
                                 + Z.max 0 (oversleep E
                                              (log (EvPrint "[yellow]Trying to connect again...") w2)))
                          (log (EvSleep 1)
                             (log (EvPrint "[yellow]Trying to connect again...") w2))) w').
    { eapply framed_wait_loop with (okev := fun _ => True) (db := fun _ => True);
        [..|exact Hloop]; frame_side. }
    destruct Hgrown as (evs & Ht & _). exists evs. simpl snd. rewrite Ht.
    simpl. now rewrite <- !app_assoc.
Qed.

Lemma wait_for_db_connection_first_attempt_witness :
  wait_for_db_connection calm sample_url 60 empty_world
  = (Ok tt,
     mkWorld [] [] 0 []
       [EvPrint "[blue]Waiting for db connection"; EvConnect sample_url;
        EvPrint "[blue]Connected"; EvDispose sample_url])
  /\ wait_for_db_connection refusing sample_url 60 empty_world
     = (Raise (Exn (BoundaryError "ArgumentError") []),
        mkWorld [] [] 0 []
          [EvPrint "[blue]Waiting for db connection"; EvConnect sample_url])
  /\ (exists evs,
        trace (snd (wait_for_db_connection (unreachable 0) sample_url 60 empty_world))
        = ([] ++ [EvPrint "[blue]Waiting for db connection"; EvConnect sample_url;
                  EvPrint "[yellow]Trying to connect again..."; EvSleep 1]
              ++ evs)%list).
Proof.
  split; [|split].
  - apply (proj1 (wait_for_db_connection_first_attempt calm sample_url 60 empty_world
                    ltac:(lia))).
    reflexivity.
  - apply (proj1 (proj2 (wait_for_db_connection_first_attempt refusing sample_url 60
                           empty_world ltac:(lia)))
             (BoundaryError "ArgumentError")).
    + reflexivity.
    + discriminate.
  - apply (proj2 (proj2 (wait_for_db_connection_first_attempt (unreachable 0)
                           sample_url 60 empty_world ltac:(lia)))).
    left. reflexivity.
Defined.

(** X15: [start] does not stop at the timeout.  When the image and the
    container are there and the database never accepts a connection,
    the wait returns after sixty seconds or more and [start] goes on
    with the migration step, whose outcome is its outcome. *)
Theorem start_goes_on_after_timeout E ctx w w1 w2 :
  ensure_image_exists E (image_name (config ctx)) w = (Ok tt, w1) ->
  run_container E (image_name (config ctx)) (container_env (config ctx))
    (port_mapping (config ctx)) w1 = (Ok tt, w2) ->
  (forall w', connect_outcome E (engine_url (config ctx)) w' = Unreachable) ->
  let w3 := snd (wait_for_db_connection E (engine_url (config ctx)) 60 w2) in
  start E ctx w = upgrade_database E (alembic_cfg ctx) w3
  /\ 60 * 1000 <= clock w3 - clock w2.
Proof.
  intros Hensure Hrun Hout w3. subst w3.
  destruct (wait_for_db_connection_loop E (engine_url (config ctx)) 60 w2)
    as ([r w3] & Hloop & Hwait).
  apply (wait_loop_unreachable_ok E _ _ _ Hout) in Hloop as [-> Hclock].
  rewrite Hwait. simpl snd. split; [|exact Hclock].
  unfold start, bind. now rewrite Hensure, Hrun, Hwait.
Qed.

Lemma start_goes_on_after_timeout_witness :
  let E := unreachable 0 in
  let w2 := snd ((ensure_image_exists E "postgres:15" >>
                  run_container E "postgres:15" (container_env (config sample_ctx))
                    (port_mapping (config sample_ctx))) sample_world) in
  let w3 := snd (wait_for_db_connection E sample_url 60 w2) in
  start E sample_ctx sample_world = upgrade_database E (alembic_cfg sample_ctx) w3
  /\ 60 * 1000 <= clock w3 - clock w2.
Proof.
  apply (start_goes_on_after_timeout (unreachable 0) sample_ctx sample_world
           (snd (ensure_image_exists (unreachable 0) "postgres:15" sample_world))).
  - reflexivity.
  - reflexivity.
  - reflexivity.
Defined.

(** ** The order of the steps *)

Ltac not_upgrade_side :=
  first [ exact (@grown_by_refl not_upgrade)
        | exact (@grown_by_trans not_upgrade)
        | (intros; apply grown_by_log; assumption)
        | (intros; apply grown_by_same_trace; reflexivity)
        | (intros; exact I) ].

Lemma grown_by_not_upgrade w w' evs :
  grown_by not_upgrade w w' ->
  trace w' = (trace w ++ evs)%list ->
  ~ exists u r, In (EvUpgrade u r) evs.
Proof.
  intros (evs' & Ht & Hall) Hevs (u & r & Hin).
  rewrite Ht in Hevs. apply app_inv_head in Hevs. subst evs'.
  rewrite List.Forall_forall in Hall. exact (Hall _ Hin).
Qed.

(** X16: [start] applies migrations last.  If [command.upgrade] is
    invoked during [start], then the image step, the container step and
    the wait have all returned normally before. *)
Theorem start_upgrades_last E ctx w evs :
  trace (snd (start E ctx w)) = (trace w ++ evs)%list ->
  (exists u r, In (EvUpgrade u r) evs) ->
  exists w1 w2 w3,
    ensure_image_exists E (image_name (config ctx)) w = (Ok tt, w1)
    /\ run_container E (image_name (config ctx)) (container_env (config ctx))
         (port_mapping (config ctx)) w1 = (Ok tt, w2)
    /\ wait_for_db_connection E (engine_url (config ctx)) 60 w2 = (Ok tt, w3).
Proof.
  intros Ht Hup.
  assert (H1 : framed (grown_by not_upgrade)
                 (ensure_image_exists E (image_name (config ctx)))).
  { apply framed_ensure_image_exists with (okev := not_upgrade); not_upgrade_side. }
  assert (H2 : framed (grown_by not_upgrade)
                 (run_container E (image_name (config ctx))
                    (container_env (config ctx)) (port_mapping (config ctx)))).
  { apply framed_run_container with (okev := not_upgrade); not_upgrade_side. }
  assert (H3 : framed (grown_by not_upgrade)
                 (wait_for_db_connection E (engine_url (config ctx)) 60)).
  { apply framed_wait_for_db_connection
      with (okev := not_upgrade) (db := fun _ => True); not_upgrade_side. }
  unfold start, bind in Ht. specialize (H1 w).
  destruct (ensure_image_exists E (image_name (config ctx)) w)
    as [[[]|e1] w1] eqn:He1; simpl in H1.
  2:{ destruct (grown_by_not_upgrade _ _ _ H1 Ht Hup). }
  specialize (H2 w1).
  destruct (run_container E (image_name (config ctx)) (container_env (config ctx))
              (port_mapping (config ctx)) w1) as [[[]|e2] w2] eqn:He2; simpl in H2.
  2:{ destruct (grown_by_not_upgrade _ _ _ (grown_by_trans _ _ _ _ H1 H2) Ht Hup). }
  specialize (H3 w2).
  destruct (wait_for_db_connection E (engine_url (config ctx)) 60 w2)
    as [[[]|e3] w3] eqn:He3; simpl in H3.
  2:{ destruct (grown_by_not_upgrade _ _ _
                  (grown_by_trans _ _ _ _ (grown_by_trans _ _ _ _ H1 H2) H3) Ht Hup). }
  exists w1, w2, w3. repeat split; first [reflexivity | assumption].
Qed.

Lemma start_upgrades_last_witness :
  exists w1 w2 w3,
    ensure_image_exists calm (image_name (config sample_ctx)) sample_world
    = (Ok tt, w1)
    /\ run_container calm (image_name (config sample_ctx))
         (container_env (config sample_ctx)) (port_mapping (config sample_ctx)) w1
       = (Ok tt, w2)
    /\ wait_for_db_connection calm (engine_url (config sample_ctx)) 60 w2
       = (Ok tt, w3).
Proof.
  apply (start_upgrades_last calm sample_ctx sample_world
           (trace (snd (start calm sample_ctx sample_world)))).
  - reflexivity.
  - exists sample_url, "head". vm_compute. do 12 right. now left.
Defined.

(** ** Pull progress *)

Lemma progress_step_refl tasks progress : progress_step tasks progress tasks progress.
Proof. unfold progress_step. repeat split; eauto. Qed.

Lemma progress_step_trans t1 p1 t2 p2 t3 p3 :
  progress_step t1 p1 t2 p2 -> progress_step t2 p2 t3 p3 -> progress_step t1 p1 t3 p3.
Proof.
  intros (Hwf1 & Hs1 & Hk1 & Hp1) (Hwf2 & Hs2 & Hk2 & Hp2).
  unfold progress_step. repeat split; auto.
  intros i t Hi. destruct (Hp1 i t Hi) as (t' & Hi' & Hd & Ht).
  destruct (Hp2 i t' Hi') as (t'' & Hi'' & Hd' & Ht').
  exists t''. repeat split; congruence.
Qed.

Lemma track_step tasks line progress key tasks' progress' :
  track tasks line progress key = Ok (tasks', progress') ->
  progress_step tasks progress tasks' progress'.
Proof.
  unfold track.
  destruct (tasks !! key) as [task|] eqn:Hkey;
    destruct (progress_detail line) as [detail|]; try discriminate.
  - destruct (detail !! "current") as [c|]; [|discriminate].
    destruct (progress !! task) as [t|] eqn:Htask; [|discriminate].
    intros [= <- <-]. pose proof (lookup_lt_Some _ _ _ Htask) as Hlt.
    unfold progress_step. repeat split.
    + intros Hwf k i Hk. destruct (Hwf k i Hk) as (t0 & Hi & Hd).
      destruct (decide (i = task)) as [->|Hne].
      * rewrite list_lookup_insert_eq by exact Hlt. eexists. split; [reflexivity|].
        simpl. congruence.
      * rewrite list_lookup_insert_ne by congruence. eauto.
    + intros Hsize. now rewrite length_insert.
    + auto.
    + intros i t0 Hi. destruct (decide (i = task)) as [->|Hne].
      * rewrite list_lookup_insert_eq by exact Hlt. eexists. split; [reflexivity|].
        simpl. split; congruence.
      * rewrite list_lookup_insert_ne by congruence. eauto.
  - destruct (detail !! "total") as [t|]; [|discriminate].
    intros [= <- <-]. unfold progress_step. repeat split.
    + intros Hwf k i Hk. apply lookup_insert_Some in Hk as [[<- <-]|[Hne Hk]].
      * rewrite list_lookup_middle by reflexivity. eauto.
      * destruct (Hwf k i Hk) as (t0 & Hi & Hd). exists t0.
        split; [now apply lookup_app_l_Some | exact Hd].
    + intros Hsize. rewrite map_size_insert_None by exact Hkey.
      rewrite length_app. simpl. lia.
    + intros k i Hk. rewrite lookup_insert_ne; [exact Hk | congruence].
    + intros i t0 Hi. exists t0. split; [now apply lookup_app_l_Some | auto].
Qed.

Lemma show_pull_progress_step tasks line progress tasks' progress' :
  show_pull_progress tasks line progress = Ok (tasks', progress') ->
  progress_step tasks progress tasks' progress'.
Proof.
  unfold show_pull_progress.
  destruct (line_status line) as [st|]; [|discriminate].
  destruct (String.eqb st "Downloading").
  { destruct (line_id line); [apply track_step | discriminate]. }
  destruct (String.eqb st "Extracting").
  { destruct (line_id line); [apply track_step | discriminate]. }
  intros [= <- <-]. apply progress_step_refl.
Qed.

Lemma show_all_progress_step lines :
  forall tasks progress tasks' progress',
    show_all_progress tasks lines progress = Ok (tasks', progress') ->
    progress_step tasks progress tasks' progress'.
Proof.
  induction lines as [|line rest IH]; intros tasks progress tasks' progress' H.
  - injection H as <- <-. apply progress_step_refl.
  - simpl in H.
    destruct (show_pull_progress tasks line progress) as [[t1 p1]|e] eqn:H1;
      [|discriminate].
    eapply progress_step_trans;
      [eapply show_pull_progress_step; eassumption | now apply IH].
Qed.

(** X17: while the lines of a pull are shown, every key of [tasks]
    stays the id of a task of the display that is described by the key,
    there are as many tasks as keys, a key keeps its task, and a task
    keeps its description and its total. *)
Theorem show_all_progress_invariant lines tasks progress tasks' progress' :
  show_all_progress tasks lines progress = Ok (tasks', progress') ->
  tasks_wf tasks progress ->
  size tasks = length progress ->
  tasks_wf tasks' progress'
  /\ size tasks' = length progress'
  /\ (forall key task, tasks !! key = Some task -> tasks' !! key = Some task)
  /\ (forall i t, progress !! i = Some t ->
                  exists t', progress' !! i = Some t'
                             /\ description t' = description t
                             /\ total t' = total t).
Proof.
  intros H Hwf Hsize.
  destruct (show_all_progress_step _ _ _ _ _ H) as (H1 & H2 & H3 & H4). auto.
Qed.

Lemma sample_lines_shown : show_all_progress ∅ sample_lines [] = Ok sample_shown.
Proof. vm_compute. reflexivity. Qed.

Lemma show_all_progress_invariant_witness :
  tasks_wf (fst sample_shown) (snd sample_shown)
  /\ size (fst sample_shown) = length (snd sample_shown)
  /\ (forall key task, (∅ : gmap string nat) !! key = Some task ->
                       fst sample_shown !! key = Some task)
  /\ (forall i t, ([] : list ProgressTask) !! i = Some t ->
                  exists t', snd sample_shown !! i = Some t'
                             /\ description t' = description t
                             /\ total t' = total t).
Proof.
  apply (show_all_progress_invariant sample_lines ∅ [] (fst sample_shown)
           (snd sample_shown)).
  - rewrite sample_lines_shown. now destruct sample_shown.
  - intros key task Hkey. rewrite lookup_empty in Hkey. discriminate.
  - reflexivity.
Defined.

Lemma show_pull_progress_other tasks line progress :
  shown line = false -> show_pull_progress tasks line progress = Ok (tasks, progress).
Proof.
  unfold shown, show_pull_progress.
  destruct (line_status line) as [st|]; [|discriminate].
  intros H. apply orb_false_iff in H as [H1 H2]. now rewrite H1, H2.
Qed.

(** X18: lines with any other status than [Downloading] and
    [Extracting] do not count: showing the lines of a pull is showing
    those that have one of the two, or no status at all. *)
Theorem show_all_progress_skips_other_lines lines :
  forall tasks progress,
    show_all_progress tasks lines progress
    = show_all_progress tasks (List.filter shown lines) progress.
Proof.
  induction lines as [|line rest IH]; intros tasks progress; [reflexivity|].
  cbn [List.filter]. destruct (shown line) eqn:Hshown.
  - cbn [show_all_progress].
    destruct (show_pull_progress tasks line progress) as [[t p]|e];
      [apply IH | reflexivity].
  - cbn [show_all_progress]. rewrite show_pull_progress_other by exact Hshown.
    apply IH.
Qed.

(** X19: the first [Downloading] line of a layer registers a task with
    the total of that line and nothing completed, whatever the line
    says is current; the next line of the layer sets what is
    completed. *)
Theorem show_pull_progress_registers_then_updates
    tasks progress (first_line next_line : PullLine) (layer : string)
    (first_detail next_detail : gmap string Z) (t c : Z) :
  let key := "[red][Download " ++ layer ++ "]" in
  tasks !! key = None ->
  line_status first_line = Some "Downloading" ->
  line_id first_line = Some layer ->
  progress_detail first_line = Some first_detail ->
  first_detail !! "total" = Some t ->
  line_status next_line = Some "Downloading" ->
  line_id next_line = Some layer ->
  progress_detail next_line = Some next_detail ->
  next_detail !! "current" = Some c ->
  show_pull_progress tasks first_line progress
  = Ok (<[key := length progress]> tasks,
        (progress ++ [mkProgressTask key t 0])%list)
  /\ show_all_progress tasks [first_line; next_line] progress
     = Ok (<[key := length progress]> tasks,
           (progress ++ [mkProgressTask key t c])%list).
Proof.
  intros key Hnew Hs1 Hi1 Hd1 Ht Hs2 Hi2 Hd2 Hc.
  assert (H1 : show_pull_progress tasks first_line progress
               = Ok (<[key := length progress]> tasks,
                     (progress ++ [mkProgressTask key t 0])%list)).
  { unfold show_pull_progress, track. rewrite Hs1, Hi1. simpl String.eqb. cbv iota.
    fold key. now rewrite Hnew, Hd1, Ht. }
  split; [exact H1|].
  cbn [show_all_progress]. rewrite H1.
  unfold show_pull_progress, track. rewrite Hs2, Hi2. simpl String.eqb. cbv iota.
  fold key. rewrite lookup_insert_eq, Hd2, Hc.
  rewrite list_lookup_middle by reflexivity.
  replace (length progress) with (length progress + 0)%nat at 2 by lia.
  rewrite insert_app_r. reflexivity.
Qed.

Lemma show_pull_progress_registers_then_updates_witness :
  show_all_progress ∅
    [mkPullLine (Some "Downloading") (Some "a1b2")
       (Some (<["current" := 10]> (<["total" := 100]> ∅)));
     mkPullLine (Some "Downloading") (Some "a1b2")
       (Some (<["current" := 60]> (<["total" := 100]> ∅)))] []
  = Ok (<["[red][Download a1b2]" := 0%nat]> ∅,
        [mkProgressTask "[red][Download a1b2]" 100 60]).
Proof.
  refine (proj2 (show_pull_progress_registers_then_updates ∅ []
                   (mkPullLine (Some "Downloading") (Some "a1b2")
                      (Some (<["current" := 10]> (<["total" := 100]> ∅))))
                   (mkPullLine (Some "Downloading") (Some "a1b2")
                      (Some (<["current" := 60]> (<["total" := 100]> ∅))))
                   "a1b2" (<["current" := 10]> (<["total" := 100]> ∅))
                   (<["current" := 60]> (<["total" := 100]> ∅)) 100 60
                   _ _ _ _ _ _ _ _ _));
    first [apply lookup_empty | reflexivity | (vm_compute; reflexivity)].
Defined.

Lemma show_all_progress_app before :
  forall after tasks progress,
    show_all_progress tasks (before ++ after) progress
    = match show_all_progress tasks before progress with
      | Ok (tasks', progress') => show_all_progress tasks' after progress'
      | Raise e => Raise e
      end.
Proof.
  induction before as [|line rest IH]; intros after tasks progress; [reflexivity|].
  cbn [app show_all_progress]. simpl.
  destruct (show_pull_progress tasks line progress) as [[t p]|e];
    [apply IH | reflexivity].
Qed.

(** X20: a line without a status, such as the error line of a failed
    pull, or a [Downloading] or [Extracting] line without an id, ends
    the display with a [KeyError]: the lines after it are not shown. *)
Theorem show_all_progress_key_error before line after tasks progress r :
  show_all_progress tasks before progress = Ok r ->
  line_status line = None \/ (shown line = true /\ line_id line = None) ->
  show_all_progress tasks (before ++ line :: after) progress
  = Raise (Exn KeyError []).
Proof.
  intros Hbefore Hline. rewrite show_all_progress_app, Hbefore.
  destruct r as [t p]. cbn [show_all_progress].
  assert (Hraise : show_pull_progress t line p = Raise (Exn KeyError [])).
  { unfold show_pull_progress. destruct Hline as [->|[Hshown Hid]]; [reflexivity|].
    unfold shown in Hshown. destruct (line_status line) as [st|]; [|reflexivity].
    rewrite Hid. apply orb_true_iff in Hshown as [H|H].
    - now rewrite H.
    - rewrite H. now destruct (String.eqb st "Downloading"). }
  now rewrite Hraise.
Qed.

Lemma show_all_progress_key_error_witness :
  show_all_progress ∅
    (sample_lines ++ mkPullLine None None None :: sample_lines) []
  = Raise (Exn KeyError []).
Proof.
  apply (show_all_progress_key_error sample_lines (mkPullLine None None None)
           sample_lines ∅ [] sample_shown).
  - exact sample_lines_shown.
  - left. reflexivity.
Defined.

(** ** More on the steps *)

(** X21: when the history query itself fails, [upgrade_database]
    raises its exception: the buffer is not read, the warning is not
    printed and [command.upgrade] is not invoked. *)
Theorem upgrade_database_current_fails E cfg url k w :
  get_main_option E cfg "sqlalchemy.url" = Ok (Some url) ->
  current_outcome E url (log (EvPrint "[blue]Running migrations") w) = inr k ->
  upgrade_database E cfg w
  = (Raise (Exn k []),
     log (EvCurrent url) (log (EvPrint "[blue]Running migrations") w)).
Proof.
  intros Hurl Hcur.
  unfold upgrade_database, command_current, target_url. rewrite Hurl.
  unfold bind, console_print, emit, ret. now rewrite Hcur.
Qed.

Lemma upgrade_database_current_fails_witness :
  upgrade_database failing_current (alembic_cfg sample_ctx) sample_world
  = (Raise (Exn OperationalError []),
     log (EvCurrent sample_url)
       (log (EvPrint "[blue]Running migrations") sample_world)).
Proof.
  apply (upgrade_database_current_fails failing_current (alembic_cfg sample_ctx)
           sample_url OperationalError sample_world).
  - vm_compute. reflexivity.
  - reflexivity.
Defined.

(** X22: [ensure_image_exists] pulls exactly when no cached image has
    the name as its first tag; otherwise it lists the images and does
    nothing else. *)
Theorem ensure_image_exists_pull_iff E image_name w :
  (In image_name (first_tags (images w)) ->
   ensure_image_exists E image_name w = (Ok tt, log EvImagesList w))
  /\ (~ In image_name (first_tags (images w)) ->
      trace (snd (ensure_image_exists E image_name w))
      = (trace w ++ [EvImagesList; EvPrint ("[blue]Pulling image: " ++ image_name);
                     EvPull image_name])%list
      /\ fst (ensure_image_exists E image_name w)
         = match pull_outcome E image_name
                   (log (EvPrint ("[blue]Pulling image: " ++ image_name))
                      (log EvImagesList w)) with
           | None => Ok tt
           | Some k => Raise (Exn k [])
           end).
Proof.
  split.
  - intros Hin. rewrite ensure_image_exists_first_tags.
    now rewrite (proj2 (existsb_eqb_In _ _) Hin).
  - intros Hnot. split; [now apply ensure_image_exists_pulls|].
    rewrite ensure_image_exists_first_tags.
    destruct (existsb _ _) eqn:Hex.
    + apply existsb_eqb_In in Hex. contradiction.
    + unfold image_pull, bind, console_print, emit, api_pull.
      now destruct (pull_outcome E _ _).
Qed.

(** X23: with no container of the reserved name, running or not,
    [run_container] stops nothing: it lists the containers and starts
    the new one, which is added to those that were there. *)
Theorem run_container_fresh E image_name env port_map w :
  (forall c, In c (containers w) -> name c <> CONTAINER_NAME) ->
  run_outcome E image_name env port_map
    (log (EvPrint ("[blue]Running container from image: " ++ image_name))
       (log EvContainersList w)) = RunStarted ->
  run_container E image_name env port_map w
  = (Ok tt,
     set_containers
       (containers w ++ [mkContainer CONTAINER_NAME Running image_name env port_map])
       (log (EvContainersRun image_name CONTAINER_NAME env port_map)
          (log (EvPrint ("[blue]Running container from image: " ++ image_name))
             (log EvContainersList w)))).
Proof.
  intros Hnone Hstart.
  assert (Hall : existsb (named CONTAINER_NAME) (containers w) = false).
  { apply not_true_is_false. intros Hex. apply existsb_exists in Hex as (c & Hin & Hn).
    apply named_name in Hn. exact (Hnone c Hin Hn). }
  assert (Hlisted : existsb (named CONTAINER_NAME)
                      (List.filter is_running (containers w)) = false).
  { apply not_true_is_false. intros Hex.
    apply listed_running in Hex as (c & Hin & Hn & _). exact (Hnone c Hin Hn). }
  unfold run_container, bind, containers_list. rewrite Hlisted.
  unfold ret, console_print, emit, containers_run. rewrite Hstart.
  simpl containers. now rewrite Hall.
Qed.

Lemma run_container_fresh_witness :
  run_container calm "postgres:15" ∅ ∅ empty_world
  = (Ok tt,
     mkWorld [] [mkContainer CONTAINER_NAME Running "postgres:15" ∅ ∅] 0 []
       [EvContainersList;
        EvPrint "[blue]Running container from image: postgres:15";
        EvContainersRun "postgres:15" CONTAINER_NAME ∅ ∅]).
Proof.
  apply (run_container_fresh calm "postgres:15" ∅ ∅ empty_world).
  - intros c Hin. destruct Hin.
  - reflexivity.
Defined.

Lemma stop_container_stop_fails E w k :
  (exists c, In c (containers w) /\ name c = CONTAINER_NAME /\ status c = Running) ->
  (forall w', stop_outcome E CONTAINER_NAME w' = Some k) ->
  stop_container E w
  = (Raise (Exn k []),
     log (EvContainerStop CONTAINER_NAME)
       (log (EvContainersGet CONTAINER_NAME)
          (log (EvPrint "[blue]Stopping container") (log EvContainersList w)))).
Proof.
  intros Hrun Hstop.
  pose proof (proj2 (listed_running CONTAINER_NAME (containers w)) Hrun) as Hlisted.
  unfold stop_container, bind at 1. unfold containers_list. rewrite Hlisted.
  unfold bind, console_print, emit, containers_get. simpl containers.
  destruct (List.find (named CONTAINER_NAME) (containers w)) as [c0|] eqn:Hfind.
  2:{ destruct Hrun as (c & Hin & Hn & _).
      apply (find_none _ _ Hfind) in Hin. apply named_name in Hn. congruence. }
  destruct (find_named _ _ _ Hfind) as [Hname _].
  unfold container_stop. now rewrite Hname, Hstop.
Qed.

(** X24: when the running container of the reserved name cannot be
    stopped, [run_container] raises the exception of the stop: the old
    container is still running and no new one is started. *)
Theorem run_container_stop_fails E image_name env port_map w k :
  (exists c, In c (containers w) /\ name c = CONTAINER_NAME /\ status c = Running) ->
  (forall w', stop_outcome E CONTAINER_NAME w' = Some k) ->
  exists w',
    run_container E image_name env port_map w = (Raise (Exn k []), w')
    /\ containers w' = containers w
    /\ trace w' = (trace w ++ [EvContainersList; EvContainersList;
                               EvPrint "[blue]Stopping container";
                               EvContainersGet CONTAINER_NAME;
                               EvContainerStop CONTAINER_NAME])%list.
Proof.
  intros Hrun Hstop.
  pose proof (proj2 (listed_running CONTAINER_NAME (containers w)) Hrun) as Hlisted.
  unfold run_container, bind at 1. unfold containers_list. rewrite Hlisted.
  unfold bind at 1.
  rewrite (stop_container_stop_fails E (log EvContainersList w) k Hrun Hstop).
  eexists. split; [reflexivity|]. split; [reflexivity|].
  simpl. now rewrite <- !app_assoc.
Qed.

Lemma run_container_stop_fails_witness :
  exists w',
    run_container failing_upgrade_and_stop "postgres:16" ∅ ∅
      (world_with (sample_container Running))
    = (Raise (Exn (BoundaryError "ContainerStopError") []), w')
    /\ containers w' = [sample_container Running]
    /\ trace w' = [EvContainersList; EvContainersList;
                   EvPrint "[blue]Stopping container";
                   EvContainersGet CONTAINER_NAME;
                   EvContainerStop CONTAINER_NAME].
Proof.
  apply (run_container_stop_fails failing_upgrade_and_stop "postgres:16" ∅ ∅
           (world_with (sample_container Running))).
  - exists (sample_container Running). repeat split. now left.
  - reflexivity.
Defined.
